(** * The configuration binder of iac-pulumi (components/utils)

    A shallow embedding of the reflection-driven binder: [ExtractConfig],
    [loadJsonConfig], [setFieldValue], [unmarshallJSONMap],
    [unmarshallJSONArray], [UnmarshalJSONConfig] and [MarshalJSONConfig].

    Go values are trees: a pointer owns its pointee, so a call that mutates
    its argument through a pointer is a function returning the new argument
    together with what the call returned.  A call ends in one of three ways:
    it returns a nil error, it returns an error, or it panics.

    The postgres components (components/postgres) and the functions of the
    program db-postgres-creds that call them follow the binder: the pulumi
    engine is a parameter that answers each registration, and a call
    returns the registrations made so far next to its results. *)

From Stdlib Require Import ZArith List Bool Lia Ascii.
From Stdlib Require Import Floats.SpecFloat.
From stdpp Require Import base option list strings gmap pretty.

Set Warnings "-register-all".

Local Open Scope string_scope.
Local Open Scope list_scope.
Local Open Scope Z_scope.

(** ** Kinds, tags and types as package reflect shows them *)

Inductive IntKind :=
  | Int | Int8 | Int16 | Int32 | Int64
  | Uint | Uint8 | Uint16 | Uint32 | Uint64.

Inductive FloatKind := Float32 | Float64.

Inductive Kind :=
  | KInvalid | KBool | KInt (k : IntKind) | KUintptr | KFloat (k : FloatKind)
  | KComplex64 | KComplex128 | KArray | KChan | KFunc | KInterface | KMap
  | KPointer | KSlice | KString | KStruct | KUnsafePointer.

(** Width in bits and signedness of an integer kind (int and uint are 64-bit). *)
Definition bits (k : IntKind) : Z :=
  match k with
  | Int8 | Uint8 => 8
  | Int16 | Uint16 => 16
  | Int32 | Uint32 => 32
  | Int | Int64 | Uint | Uint64 => 64
  end.

Definition signed (k : IntKind) : bool :=
  match k with
  | Int | Int8 | Int16 | Int32 | Int64 => true
  | _ => false
  end.

(** Two's-complement wrap-around of [n] to a signed integer of [w] bits. *)
Definition wrapS (w n : Z) : Z :=
  let m := n mod 2 ^ w in
  if m <? 2 ^ (w - 1) then m else m - 2 ^ w.

(** IEEE-754 binary64 numbers. *)
Definition float64 := spec_float.

Definition fzero : float64 := S754_zero false.

(** [x == 0.0]: both signed zeros compare equal to zero, NaN does not. *)
Definition fIsZero (x : float64) : bool :=
  match x with S754_zero _ => true | _ => false end.

(** [float32(x)]: rounding to binary32, to nearest even. *)
Definition toFloat32 (x : float64) : float64 :=
  match x with
  | S754_finite s m e => binary_round 24 128 s m e
  | _ => x
  end.

(** [reflect.StructTag]: the key:"value" pairs of a field's tag. *)
Definition StructTag := gmap string string.

Definition Tag_Get (tag : StructTag) (key : string) : string :=
  default "" (tag !! key).

Definition Tag_Lookup (tag : StructTag) (key : string) : option string :=
  tag !! key.

(** The four deferred input interfaces of the pulumi SDK, and any other
    interface type. *)
Inductive InterfaceType :=
  | StringInput | BoolInput | IntInput | Float64Input
  | OtherInterface (name : string).

Inductive GoType :=
  | TBool
  | TInt (k : IntKind)
  | TFloat (k : FloatKind)
  | TString
  | TOpaque (k : Kind)
  | TMap
  | TStruct (fields : list (string * StructTag * GoType))
  | TPtr (elem : GoType)
  | TSlice (elem : GoType)
  | TArray (len : nat) (elem : GoType)
  | TInterface (i : InterfaceType).

(** ** JSON values as [encoding/json] decodes them into [interface{}] *)

Inductive Json :=
  | JNull
  | JBool (b : bool)
  | JNum (x : float64)
  | JStr (s : string)
  | JArr (arr : list Json)
  | JObj (dict : list (string * Json)).

Definition Dict := list (string * Json).

(** [dict[key]] with its presence flag. *)
Fixpoint dictGet (dict : Dict) (key : string) : option Json :=
  match dict with
  | [] => None
  | (k, v) :: rest => if decide (k = key) then Some v else dictGet rest key
  end.

(** ** Values *)

(** A pulumi output: a handle on a value the engine resolves later.  The
    binder never looks inside. *)
Record Output (A : Type) := mkOutput { out_value : A; out_secret : bool }.
Arguments mkOutput {A} _ _.
Arguments out_value {A} _.
Arguments out_secret {A} _.

(** The dynamic values an input interface holds: a literal wrapper
    ([pulumi.String] ...) or an output ([pulumi.StringOutput] ...). *)
Inductive Dyn :=
  | pulumi_String (s : string)
  | pulumi_Bool (b : bool)
  | pulumi_Int (n : Z)
  | pulumi_Float64 (x : float64)
  | pulumi_StringOutput (o : Output string)
  | pulumi_BoolOutput (o : Output bool)
  | pulumi_IntOutput (o : Output Z)
  | pulumi_Float64Output (o : Output float64).

Record Field (V : Type) := mkField {
  fname : string;
  ftag : StructTag;
  fval : V
}.
Arguments mkField {V} _ _ _.
Arguments fname {V} _.
Arguments ftag {V} _.
Arguments fval {V} _.

(** Every field is exported (settable through reflection), as the fields of
    the configuration structs of the repository are. *)
Inductive GoVal :=
  | VBool (b : bool)
  | VInt (k : IntKind) (n : Z)
  | VFloat (k : FloatKind) (x : float64)
  | VString (s : string)
  | VOpaque (k : Kind)
  | VMap (m : option Dict)
  | VStruct (fields : list (Field GoVal))
  | VNilPtr (elem : GoType)
  | VPtr (pointee : GoVal)
  | VSlice (elem : GoType) (s : option (list GoVal))
  | VArray (elem : GoType) (a : list GoVal)
  | VInterface (i : InterfaceType) (d : option Dyn).

(** What an [interface{}] argument holds. *)
Inductive Any :=
  | ANil
  | AVal (v : GoVal)
  | ADyn (d : Dyn).

Definition kindOf (v : GoVal) : Kind :=
  match v with
  | VBool _ => KBool
  | VInt k _ => KInt k
  | VFloat k _ => KFloat k
  | VString _ => KString
  | VOpaque k => k
  | VMap _ => KMap
  | VStruct _ => KStruct
  | VNilPtr _ | VPtr _ => KPointer
  | VSlice _ _ => KSlice
  | VArray _ _ => KArray
  | VInterface _ _ => KInterface
  end.

(** [reflect.Zero(t)] *)
Fixpoint zero (t : GoType) : GoVal :=
  match t with
  | TBool => VBool false
  | TInt k => VInt k 0
  | TFloat k => VFloat k fzero
  | TString => VString ""
  | TOpaque k => VOpaque k
  | TMap => VMap None
  | TStruct fields =>
      VStruct (map (fun d => mkField (fst (fst d)) (snd (fst d)) (zero (snd d))) fields)
  | TPtr elem => VNilPtr elem
  | TSlice elem => VSlice elem None
  | TArray len elem => VArray elem (replicate len (zero elem))
  | TInterface i => VInterface i None
  end.

(** [fv.Interface()] *)
Definition Interface (fv : GoVal) : Any :=
  match fv with
  | VInterface _ None => ANil
  | VInterface _ (Some d) => ADyn d
  | _ => AVal fv
  end.

(** [fv.Addr()] *)
Definition Addr (fv : GoVal) : GoVal := VPtr fv.

(** [fv.IsZero()] on the kinds for which [ExtractConfig] calls it. *)
Fixpoint IsZero (v : GoVal) : bool :=
  match v with
  | VBool b => negb b
  | VInt _ n => n =? 0
  | VFloat _ x => match x with S754_zero false => true | _ => false end
  | VString s => if decide (s = "") then true else false
  | VOpaque _ => true
  | VMap m => match m with None => true | Some _ => false end
  | VStruct fields => forallb (fun f => IsZero (fval f)) fields
  | VNilPtr _ => true
  | VPtr _ => false
  | VSlice _ s => match s with None => true | Some _ => false end
  | VArray _ a => forallb IsZero a
  | VInterface _ d => match d with None => true | Some _ => false end
  end.

(** [fv.Type()] *)
Fixpoint typeOf (v : GoVal) : GoType :=
  match v with
  | VBool _ => TBool
  | VInt k _ => TInt k
  | VFloat k _ => TFloat k
  | VString _ => TString
  | VOpaque k => TOpaque k
  | VMap _ => TMap
  | VStruct fields => TStruct (map (fun f => (fname f, ftag f, typeOf (fval f))) fields)
  | VNilPtr elem => TPtr elem
  | VPtr pointee => TPtr (typeOf pointee)
  | VSlice elem _ => TSlice elem
  | VArray elem a => TArray (length a) elem
  | VInterface i _ => TInterface i
  end.

(** [reflect.TypeOf(val).Kind()] of a decoded JSON value; [nil] has no type. *)
Definition jsonKind (val : Json) : option Kind :=
  match val with
  | JNull => None
  | JBool _ => Some KBool
  | JNum _ => Some (KFloat Float64)
  | JStr _ => Some KString
  | JArr _ => Some KSlice
  | JObj _ => Some KMap
  end.

(** ** How a call ends *)

Inductive panic :=
  | MissingConfig (key : string)
  | TypeAssertion (want : string) (got : Json)
  | ReflectCall (method : string) (k : Kind)
  | IndexOutOfRange (i : nat).

Inductive error :=
  | ErrJsonEmpty
  | ErrObjNotStructPtr
  | ErrObjNotSlicePtrNil
  | ErrObjNotSlicePtr (k : Kind)
  | ErrConfigRequired (fieldName : string)
  | ErrSecretNotOutput (fieldName : string)
  | ErrLoadJson (fieldName : string) (cause : error)
  | ErrUnmarshalConfig (fieldName : string) (cause : error)
  | ErrUnsupportedField (fieldName : string) (k : Kind)
  | ErrSetFailed (fieldName : string) (k : Kind) (val : Json)
  | ErrNotSettable (fieldName : string) (val : Json)
  | ErrUnsupportedInterface (i : InterfaceType) (fieldName : string)
  | ErrJsonMapField (fieldName : string) (cause : error)
  | ErrJsonArrayField (fieldName : string) (cause : error)
  | ErrJsonArrayIndex (i : nat) (cause : error)
  | ErrJsonSyntax (data : string)
  | ErrUnsupportedJson (val : Json)
  | ErrNotAStruct (k : Kind)
  | ErrEncodingJson.

(** [Nil] is a returned nil error.  [OutOfFuel] is the recursion bound of the
    model running out; the entry points below never produce it. *)
Inductive outcome :=
  | Nil
  | Err (e : error)
  | Panic (p : panic)
  | OutOfFuel.

(** What a loop body does at its end: fall through to the next iteration
    (also [continue]) or leave the function. *)
Inductive ctl :=
  | Continue
  | Return (o : outcome).

(** A value read from the configuration, or the panic of a [Require]. *)
Inductive read (A : Type) :=
  | Got (a : A)
  | Missing (p : panic).
Arguments Got {A} _.
Arguments Missing {A} _.


(** ** The Configuration Source: pulumi's [config.Config] *)

Record Context := mkContext {
  Project : string;
  ctxConfig : gmap string string
}.

Record Config := mkConfig {
  cfg_ctx : Context;
  cfg_namespace : string
}.

(** [config.New]: an empty namespace stands for the project's name. *)
Definition config_New (ctx : Context) (namespace : string) : Config :=
  mkConfig ctx (if decide (namespace = "") then Project ctx else namespace).

Definition fullKey (cfg : Config) (key : string) : string :=
  cfg_namespace cfg +:+ ":" +:+ key.

(** Every accessor reports the keys it read next to its result. *)
Definition cfg_Get (cfg : Config) (key : string) : list string * string :=
  ([fullKey cfg key], default "" (ctxConfig (cfg_ctx cfg) !! fullKey cfg key)).

Definition cfg_Require (cfg : Config) (key : string) : list string * read string :=
  ([fullKey cfg key],
   match ctxConfig (cfg_ctx cfg) !! fullKey cfg key with
   | Some v => Got v
   | None => Missing (MissingConfig (fullKey cfg key))
   end).

(** Libraries outside the repository: the casts of the typed accessors and
    [encoding/json]. *)
Record External := mkExternal {
  cast_ToBool : string -> bool;
  cast_ToInt : string -> Z;
  cast_ToFloat64 : string -> float64;
  json_Unmarshal : string -> option Json;
  json_UnmarshalMap : string -> option Dict -> option (option Dict);
  json_Marshal : gmap string Any -> option string
}.

Record configParams := mkParams {
  fieldName : string;
  isRequired : bool;
  isSecret : bool
}.

(** [int(val.(float64))]: truncation toward zero.  Outside the range of int
    Go leaves the result to the implementation; amd64 gives the least int. *)
Definition ftrunc (x : float64) : option Z :=
  match x with
  | S754_zero _ => Some 0
  | S754_finite s m e =>
      Some (cond_Zopp s (if 0 <=? e then Zpos m * 2 ^ e else Zpos m / 2 ^ (- e)))
  | _ => None
  end.

Definition minInt : Z := - 2 ^ 63.
Definition maxInt : Z := 2 ^ 63 - 1.

Definition intOfFloat64 (x : float64) : Z :=
  match ftrunc x with
  | Some n => if (minInt <=? n) && (n <=? maxInt) then n else minInt
  | None => minInt
  end.

#[global] Instance IntKind_eq_dec : EqDecision IntKind.
Proof. solve_decision. Defined.
#[global] Instance FloatKind_eq_dec : EqDecision FloatKind.
Proof. solve_decision. Defined.
#[global] Instance Kind_eq_dec : EqDecision Kind.
Proof. solve_decision. Defined.

(** [fv.Elem().Kind()] of a pointer or an interface. *)
Definition dynKind (d : Dyn) : Kind :=
  match d with
  | pulumi_String _ => KString
  | pulumi_Bool _ => KBool
  | pulumi_Int _ => KInt Int
  | pulumi_Float64 _ => KFloat Float64
  | _ => KStruct
  end.

Definition elemKind (fv : GoVal) : Kind :=
  match fv with
  | VPtr pointee => kindOf pointee
  | VInterface _ (Some d) => dynKind d
  | _ => KInvalid
  end.

Definition anyKind (obj : Any) : Kind :=
  match obj with
  | ANil => KInvalid
  | AVal v => kindOf v
  | ADyn d => dynKind d
  end.

Section Binder.

Variable ext : External.

(** ** Typed accessors (lines 21-83) *)

Definition cfg_GetBool (cfg : Config) (key : string) : list string * bool :=
  let '(keys, _) := cfg_Get cfg key in
  (keys, match ctxConfig (cfg_ctx cfg) !! fullKey cfg key with
         | Some v => cast_ToBool ext v
         | None => false
         end).

Definition cfg_GetInt (cfg : Config) (key : string) : list string * Z :=
  let '(keys, _) := cfg_Get cfg key in
  (keys, match ctxConfig (cfg_ctx cfg) !! fullKey cfg key with
         | Some v => wrapS 64 (cast_ToInt ext v)
         | None => 0
         end).

Definition cfg_GetFloat64 (cfg : Config) (key : string) : list string * float64 :=
  let '(keys, _) := cfg_Get cfg key in
  (keys, match ctxConfig (cfg_ctx cfg) !! fullKey cfg key with
         | Some v => cast_ToFloat64 ext v
         | None => fzero
         end).

Definition readMap {A B : Type} (f : A -> B) (r : list string * read A) : list string * read B :=
  (fst r, match snd r with Got a => Got (f a) | Missing p => Missing p end).

Definition cfg_RequireBool (cfg : Config) (key : string) : list string * read bool :=
  readMap (cast_ToBool ext) (cfg_Require cfg key).

Definition cfg_RequireInt (cfg : Config) (key : string) : list string * read Z :=
  readMap (fun v => wrapS 64 (cast_ToInt ext v)) (cfg_Require cfg key).

Definition cfg_RequireFloat64 (cfg : Config) (key : string) : list string * read float64 :=
  readMap (cast_ToFloat64 ext) (cfg_Require cfg key).

Definition optional {A : Type} (r : list string * A) : list string * read A :=
  (fst r, Got (snd r)).

Definition getConfigString (cfg : Config) (params : configParams) : list string * read string :=
  if isRequired params then cfg_Require cfg (fieldName params)
  else optional (cfg_Get cfg (fieldName params)).

Definition getConfigBool (cfg : Config) (params : configParams) : list string * read bool :=
  if isRequired params then cfg_RequireBool cfg (fieldName params)
  else optional (cfg_GetBool cfg (fieldName params)).

Definition getConfigInt (cfg : Config) (params : configParams) : list string * read Z :=
  if isRequired params then cfg_RequireInt cfg (fieldName params)
  else optional (cfg_GetInt cfg (fieldName params)).

Definition getConfigFloat (cfg : Config) (params : configParams) : list string * read float64 :=
  if isRequired params then cfg_RequireFloat64 cfg (fieldName params)
  else optional (cfg_GetFloat64 cfg (fieldName params)).

(** The secret accessors wrap what the plain ones read in a secret output. *)
Definition secretOf {A : Type} (r : list string * read A) : list string * read (Output A) :=
  readMap (fun v => mkOutput v true) r.

Definition getSecretString (cfg : Config) (params : configParams) :=
  secretOf (getConfigString cfg params).

Definition getSecretBool (cfg : Config) (params : configParams) :=
  secretOf (getConfigBool cfg params).

Definition getSecretInt (cfg : Config) (params : configParams) :=
  secretOf (getConfigInt cfg params).

Definition getSecretFloat (cfg : Config) (params : configParams) :=
  secretOf (getConfigFloat cfg params).

(** ** loadJsonConfig (lines 85-93): [inl] the JSON text, [inr] the error *)

Definition isNilAny (curr : Any) : bool :=
  match curr with ANil => true | _ => false end.

Definition isEmpty (s : string) : bool :=
  if decide (s = "") then true else false.

Definition loadJsonConfig (cfg : Config) (fieldName : string) (isRequired : bool)
    (curr : Any) : list string * (string + error) :=
  let '(keys, cfgJson) := cfg_Get cfg fieldName in
  if isRequired && isNilAny curr && isEmpty cfgJson then
    (keys, inr (ErrConfigRequired fieldName))
  else if isEmpty cfgJson then
    (keys, inr ErrJsonEmpty)
  else (keys, inl cfgJson).

(** ** setFieldValue (lines 282-300) *)

(** [reflect.ValueOf(val).Convert(fv.Type())] when the kinds agree; [None]
    is its panic.  Maps are [map[string]interface{}]. *)
Definition Convert (val : Json) (fv : GoVal) : option GoVal :=
  match val, fv with
  | JBool b, VBool _ => Some (VBool b)
  | JNum x, VFloat Float64 _ => Some (VFloat Float64 x)
  | JStr s, VString _ => Some (VString s)
  | JObj dict, VMap _ => Some (VMap (Some dict))
  | _, _ => None
  end.

(** The deferred function: it formats [fv.Elem().Kind()], which panics
    again unless [fv] is a pointer or an interface. *)
Definition recovered (fv : GoVal) (val : Json) (fieldName : string) : GoVal * outcome :=
  match kindOf fv with
  | KInterface | KPointer => (fv, Err (ErrSetFailed fieldName (elemKind fv) val))
  | k => (fv, Panic (ReflectCall "Elem" k))
  end.

Definition setFieldValue (fv : GoVal) (val : Json) (fieldName : string) : GoVal * outcome :=
  match jsonKind val with
  | None => recovered fv val fieldName
  | Some vk =>
      if decide (kindOf fv <> vk) then
        if decide (kindOf fv = KInt Int /\ vk = KFloat Float64) then
          match val with
          | JNum x => (VInt Int (intOfFloat64 x), Nil)
          | _ => (fv, Err (ErrNotSettable fieldName val))
          end
        else (fv, Err (ErrNotSettable fieldName val))
      else
        match Convert val fv with
        | Some fv' => (fv', Nil)
        | None => recovered fv val fieldName
        end
  end.

(** ** The structural JSON binder (lines 302-435) *)

(** The key of a field inside nested JSON: the config tag, else the json tag. *)
Definition jsonFieldName (tag : StructTag) : option string :=
  if negb (isEmpty (Tag_Get tag "config")) then Some (Tag_Get tag "config")
  else if negb (isEmpty (Tag_Get tag "json")) then Some (Tag_Get tag "json")
  else None.

(** The pointee of a pointer argument after the callee wrote through it. *)
Definition Elem (obj : Any) (old : GoVal) : GoVal :=
  match obj with
  | AVal (VPtr pointee) => pointee
  | _ => old
  end.

(** [if err != nil { return fmt.Errorf("...: %w", err) }] *)
Definition wrapped (w : error -> error) (o : outcome) : ctl :=
  match o with
  | Nil => Continue
  | Err e => Return (Err (w e))
  | _ => Return o
  end.

Definition isNilDyn (d : option Dyn) : bool :=
  match d with None => true | Some _ => false end.

(** The loop over the fields of a struct: a body either continues with the
    next field or returns; the fields it wrote stay written. *)
Fixpoint forFields (body : Field GoVal -> GoVal * ctl) (fields : list (Field GoVal))
    : list (Field GoVal) * outcome :=
  match fields with
  | [] => ([], Nil)
  | ff :: rest =>
      let '(fv', c) := body ff in
      let ff' := mkField (fname ff) (ftag ff) fv' in
      match c with
      | Continue =>
          let '(rest', o) := forFields body rest in (ff' :: rest', o)
      | Return o => (ff' :: rest, o)
      end
  end.

(** Slices: [None] is the nil slice. *)
Definition sliceList (s : option (list GoVal)) : list GoVal := default [] s.

Section Bodies.

(** The recursive calls, at the recursion bound below the current one. *)
Variable unmarshallJSONMap_rec : Dict -> Any -> Any * outcome.
Variable unmarshallJSONArray_rec : list Json -> Any -> Any * outcome.

(** An input-interface field (lines 340-364). *)
Definition mapInterfaceField (dict : Dict) (fieldName : string)
    (i : InterfaceType) (d : option Dyn) : GoVal * ctl :=
  let fv := VInterface i d in
  match i with
  | StringInput =>
      let ok := match d with Some (pulumi_String _) => true | _ => false end in
      match dictGet dict fieldName with
      | Some val =>
          if ok || isNilDyn d then
            match val with
            | JStr s => (VInterface i (Some (pulumi_String s)), Continue)
            | _ => (fv, Return (Panic (TypeAssertion "string" val)))
            end
          else (fv, Continue)
      | None => (fv, Continue)
      end
  | BoolInput =>
      let ok := match d with Some (pulumi_Bool _) => true | _ => false end in
      match dictGet dict fieldName with
      | Some val =>
          if ok || isNilDyn d then
            match val with
            | JBool b => (VInterface i (Some (pulumi_Bool b)), Continue)
            | _ => (fv, Return (Panic (TypeAssertion "bool" val)))
            end
          else (fv, Continue)
      | None => (fv, Continue)
      end
  | IntInput =>
      let ok := match d with Some (pulumi_Int _) => true | _ => false end in
      match dictGet dict fieldName with
      | Some val =>
          (* no decoded JSON value has dynamic type int *)
          if ok || isNilDyn d then (fv, Return (Panic (TypeAssertion "int" val)))
          else (fv, Continue)
      | None => (fv, Continue)
      end
  | Float64Input =>
      let ok := match d with Some (pulumi_Float64 _) => true | _ => false end in
      match dictGet dict fieldName with
      | Some val =>
          if ok || isNilDyn d then
            match val with
            | JNum x => (VInterface i (Some (pulumi_Float64 x)), Continue)
            | _ => (fv, Return (Panic (TypeAssertion "float64" val)))
            end
          else (fv, Continue)
      | None => (fv, Continue)
      end
  | OtherInterface _ => (fv, Return (Err (ErrUnsupportedInterface i fieldName)))
  end.

(** A pointer field once it is not nil (lines 377-390). *)
Definition mapPointerField (dict : Dict) (fieldName : string) (pointee : GoVal)
    (val : Json) : GoVal * ctl :=
  let fv := VPtr pointee in
  match val with
  | JObj childDict =>
      let '(obj', o) := unmarshallJSONMap_rec childDict (Interface fv) in
      (VPtr (Elem obj' pointee), wrapped (ErrJsonMapField fieldName) o)
  | JArr childArr =>
      let '(obj', o) := unmarshallJSONArray_rec childArr (Interface fv) in
      (VPtr (Elem obj' pointee), wrapped (ErrJsonArrayField fieldName) o)
  | _ =>
      let '(pointee', o) := setFieldValue pointee val fieldName in
      (VPtr pointee', Return o)
  end.

(** A struct, pointer, slice, array or map field whose key is present
    (lines 369-398). *)
Definition mapStructuralField (dict : Dict) (fieldName : string) (fv : GoVal)
    (val : Json) : GoVal * ctl :=
  match fv with
  | VStruct _ =>
      match val with
      | JObj childDict =>
          let '(obj', o) := unmarshallJSONMap_rec childDict (AVal (Addr fv)) in
          (Elem obj' fv, wrapped (ErrJsonMapField fieldName) o)
      | _ => (fv, Return (Panic (TypeAssertion "map[string]interface {}" val)))
      end
  | VNilPtr elem => mapPointerField dict fieldName (zero elem) val
  | VPtr pointee => mapPointerField dict fieldName pointee val
  | VSlice elem s =>
      let fv1 := VSlice elem (Some (sliceList s)) in
      match val with
      | JArr childArr =>
          let '(obj', o) := unmarshallJSONArray_rec childArr (AVal (Addr fv1)) in
          (Elem obj' fv1, wrapped (ErrJsonArrayField fieldName) o)
      | _ => (fv1, Return (Panic (TypeAssertion "[]interface {}" val)))
      end
  | VArray _ _ => (fv, Return (Panic (ReflectCall "IsNil" KArray)))
  | _ => (fv, Continue)
  end.

(** The body of the loop over the fields (lines 317-406). *)
Definition mapField (dict : Dict) (ff : Field GoVal) : GoVal * ctl :=
  let fv := fval ff in
  match jsonFieldName (ftag ff) with
  | None => (fv, Continue)
  | Some fieldName =>
      match fv with
      | VInterface i d => mapInterfaceField dict fieldName i d
      | VSlice _ _ | VArray _ _ | VStruct _ | VNilPtr _ | VPtr _ | VMap _ =>
          match dictGet dict fieldName with
          | None => (fv, Continue)
          | Some val => mapStructuralField dict fieldName fv val
          end
      | _ =>
          match dictGet dict fieldName with
          | Some val =>
              let '(fv', o) := setFieldValue fv val fieldName in
              (fv', wrapped (fun e => e) o)
          | None => (fv, Continue)
          end
      end
  end.

Definition unmarshallJSONMap_body (dict : Dict) (obj : Any) : Any * outcome :=
  match obj with
  | AVal (VPtr (VStruct fields)) =>
      let '(fields', o) := forFields (mapField dict) fields in
      (AVal (VPtr (VStruct fields')), o)
  | _ => (obj, Err ErrObjNotStructPtr)
  end.

(** The loop over the elements of the array (lines 425-433): [s] is the
    slice behind the pointer, [i] the index of the head of [arr]. *)
Fixpoint arrayLoop (elem : GoType) (initalLen i : nat) (arr : list Json)
    (s : option (list GoVal)) : option (list GoVal) * outcome :=
  match arr with
  | [] => (s, Nil)
  | val :: rest =>
      match val with
      | JObj dict =>
          let s1 :=
            if (length (sliceList s) <=? initalLen + i)%nat
            then Some (sliceList s ++ [zero elem]) else s in
          match sliceList s1 !! (initalLen + i)%nat with
          | None => (s1, Panic (IndexOutOfRange (initalLen + i)))
          | Some e =>
              let '(obj', o) := unmarshallJSONMap_rec dict (AVal (Addr e)) in
              let s2 := Some (<[(initalLen + i)%nat := Elem obj' e]> (sliceList s1)) in
              match o with
              | Nil => arrayLoop elem initalLen (S i) rest s2
              | Err err => (s2, Err (ErrJsonArrayIndex i err))
              | _ => (s2, o)
              end
          end
      | _ => (s, Panic (TypeAssertion "map[string]interface {}" val))
      end
  end.

Definition unmarshallJSONArray_body (arr : list Json) (obj : Any) : Any * outcome :=
  match obj with
  | ANil => (obj, Err ErrObjNotSlicePtrNil)
  | AVal (VPtr (VSlice elem s)) =>
      let initalLen := length (sliceList s) in
      let '(s', o) := arrayLoop elem initalLen 0 arr s in
      (AVal (VPtr (VSlice elem s')), o)
  | _ => (obj, Err (ErrObjNotSlicePtr (anyKind obj)))
  end.

End Bodies.

Fixpoint unmarshallJSONMap_fuel (fuel : nat) (dict : Dict) (obj : Any) {struct fuel}
    : Any * outcome :=
  match fuel with
  | O => (obj, OutOfFuel)
  | S n =>
      unmarshallJSONMap_body (unmarshallJSONMap_fuel n) (unmarshallJSONArray_fuel n)
        dict obj
  end
with unmarshallJSONArray_fuel (fuel : nat) (arr : list Json) (obj : Any) {struct fuel}
    : Any * outcome :=
  match fuel with
  | O => (obj, OutOfFuel)
  | S n => unmarshallJSONArray_body (unmarshallJSONMap_fuel n) arr obj
  end.

(** Nesting depth of a JSON value: the recursion descends one level of the
    JSON per call, so this many levels of recursion are enough. *)
Fixpoint depth (val : Json) : nat :=
  match val with
  | JArr arr => S (foldr (fun v d => Nat.max (depth v) d) O arr)
  | JObj dict => S (foldr (fun kv d => Nat.max (depth (snd kv)) d) O dict)
  | _ => O
  end.

Definition unmarshallJSONMap (dict : Dict) (obj : Any) : Any * outcome :=
  unmarshallJSONMap_fuel (depth (JObj dict)) dict obj.

Definition unmarshallJSONArray (arr : list Json) (obj : Any) : Any * outcome :=
  unmarshallJSONArray_fuel (depth (JArr arr)) arr obj.

(** ** UnmarshalJSONConfig (lines 437-455) *)

Definition UnmarshalJSONConfig (data : string) (obj : Any) : Any * outcome :=
  if isEmpty data then (obj, Nil)
  else
    match json_Unmarshal ext data with
    | None => (obj, Err (ErrJsonSyntax data))
    | Some tmp =>
        match tmp with
        | JArr val => unmarshallJSONArray val obj
        | JObj val => unmarshallJSONMap val obj
        | val => (obj, Err (ErrUnsupportedJson val))
        end
    end.

(** ** ExtractConfig (lines 101-280) *)

(** The key of a field and whether it came from the secret tag
    (lines 120-135). *)
Definition configFieldName (tag : StructTag) : option (string * bool) :=
  if negb (isEmpty (Tag_Get tag "config")) then Some (Tag_Get tag "config", false)
  else if negb (isEmpty (Tag_Get tag "json")) then Some (Tag_Get tag "json", false)
  else if negb (isEmpty (Tag_Get tag "secret")) then Some (Tag_Get tag "secret", true)
  else None.

Definition hasRequired (tag : StructTag) : bool :=
  match Tag_Lookup tag "required" with Some _ => true | None => false end.

(** The common end of the four scalar cases: the value was read (or the
    required read panicked), then the secret flag is checked, then the field
    is assigned. *)
Definition extractScalar {A : Type} (r : list string * read A) (isSecret : bool)
    (fieldName : string) (fv : GoVal) (assign : A -> GoVal) : GoVal * list string * ctl :=
  match snd r with
  | Missing p => (fv, fst r, Return (Panic p))
  | Got val =>
      if isSecret then (fv, fst r, Return (Err (ErrSecretNotOutput fieldName)))
      else (assign val, fst r, Continue)
  end.

(** The integer case on a field of unsigned kind, where [fv.Int()] and
    [fv.SetInt] panic: [fv.Int()] is evaluated only when the field is
    declared required ([&&] stops at a false left operand), [fv.SetInt] only
    when the value read is not zero. *)
Definition extractUnsigned (cfg : Config) (fieldName : string)
    (isRequired isSecret : bool) (k : IntKind) (fv : GoVal) : GoVal * list string * ctl :=
  if isRequired then (fv, [], Return (Panic (ReflectCall "Int" (KInt k))))
  else
    let r := getConfigInt cfg (mkParams fieldName false isSecret) in
    match snd r with
    | Missing p => (fv, fst r, Return (Panic p))
    | Got val =>
        if isSecret then (fv, fst r, Return (Err (ErrSecretNotOutput fieldName)))
        else if negb (val =? 0)
        then (fv, fst r, Return (Panic (ReflectCall "SetInt" (KInt k))))
        else (fv, fst r, Continue)
    end.

(** The common end of the four input-interface cases. *)
Definition extractInput {A : Type} (cfg : Config) (params : configParams)
    (getSecret : Config -> configParams -> list string * read (Output A))
    (getConfig : Config -> configParams -> list string * read A)
    (fv : GoVal) (output : Output A -> GoVal) (literal : A -> GoVal)
    (nonZero : A -> bool) (okOrNil : bool) : GoVal * list string * ctl :=
  if isSecret params then
    let r := getSecret cfg params in
    match snd r with
    | Missing p => (fv, fst r, Return (Panic p))
    | Got o => (output o, fst r, Continue)
    end
  else
    let r := getConfig cfg params in
    match snd r with
    | Missing p => (fv, fst r, Return (Panic p))
    | Got val =>
        (if nonZero val && okOrNil then literal val else fv, fst r, Continue)
    end.

(** Struct, pointer, array and slice fields (lines 192-223).  [inPlace]
    says that [val] points at the field itself, so that what the JSON binder
    wrote before failing stays in the field. *)
Definition extractStructural (cfg : Config) (fieldName : string) (isRequired : bool)
    (fv : GoVal) : GoVal * list string * ctl :=
  let '(val, inPlace) :=
    match fv with
    | VPtr _ => (fv, true)
    | VNilPtr elem => (VPtr (zero elem), false)
    | _ => if negb (IsZero fv) then (Addr fv, true)
           else (VPtr (zero (typeOf fv)), false)
    end in
  let '(keys, r) := loadJsonConfig cfg fieldName isRequired (Interface val) in
  match r with
  | inr ErrJsonEmpty => (fv, keys, Continue)
  | inr err => (fv, keys, Return (Err (ErrLoadJson fieldName err)))
  | inl data =>
      let '(obj', o) := UnmarshalJSONConfig data (Interface val) in
      let val' := match obj' with AVal v => v | _ => val end in
      let written := match fv with
                     | VPtr _ | VNilPtr _ => val'
                     | _ => Elem obj' fv
                     end in
      match o with
      | Nil => (written, keys, Continue)
      | _ => (if inPlace then written else fv, keys,
              wrapped (ErrUnmarshalConfig fieldName) o)
      end
  end.

(** The body of the loop over the fields (lines 115-277). *)
Definition extractField (cfg : Config) (ff : Field GoVal) : GoVal * list string * ctl :=
  let fv := fval ff in
  match configFieldName (ftag ff) with
  | None => (fv, [], Continue)
  | Some (fieldName, isSecret) =>
      let isRequired := hasRequired (ftag ff) in
      let params := mkParams fieldName isRequired isSecret in
      match fv with
      | VBool b =>
          let params := mkParams fieldName (isRequired && b) isSecret in
          extractScalar (getConfigBool cfg params) isSecret fieldName fv
            (fun val => if val then VBool val else fv)
      | VInt k n =>
          if signed k then
            let params := mkParams fieldName (isRequired && (n =? 0)) isSecret in
            extractScalar (getConfigInt cfg params) isSecret fieldName fv
              (fun val => if negb (val =? 0) then VInt k (wrapS (bits k) val) else fv)
          else extractUnsigned cfg fieldName isRequired isSecret k fv
      | VFloat k x =>
          let params := mkParams fieldName (isRequired && fIsZero x) isSecret in
          extractScalar (getConfigFloat cfg params) isSecret fieldName fv
            (fun val =>
               if negb (fIsZero val)
               then VFloat k (match k with Float32 => toFloat32 val | Float64 => val end)
               else fv)
      | VString s =>
          let params := mkParams fieldName (isRequired && isEmpty s) isSecret in
          extractScalar (getConfigString cfg params) isSecret fieldName fv
            (fun val => if negb (isEmpty val) then VString val else fv)
      | VMap m =>
          let '(keys, r) := loadJsonConfig cfg fieldName isRequired (Interface fv) in
          match r with
          | inr ErrJsonEmpty => (fv, keys, Continue)
          | inr err => (fv, keys, Return (Err (ErrLoadJson fieldName err)))
          | inl bytes =>
              match json_UnmarshalMap ext bytes m with
              | Some m' => (VMap m', keys, Continue)
              | None =>
                  (fv, keys, Return (Err (ErrUnmarshalConfig fieldName ErrEncodingJson)))
              end
          end
      | VStruct _ | VNilPtr _ | VPtr _ | VArray _ _ | VSlice _ _ =>
          extractStructural cfg fieldName isRequired fv
      | VInterface i d =>
          match i with
          | StringInput =>
              let '(curr, ok) :=
                match d with Some (pulumi_String s) => (s, true) | _ => ("", false) end in
              let params :=
                mkParams fieldName (isRequired && (isNilDyn d || (ok && isEmpty curr)))
                  isSecret in
              extractInput cfg params getSecretString getConfigString fv
                (fun o => VInterface i (Some (pulumi_StringOutput o)))
                (fun val => VInterface i (Some (pulumi_String val)))
                (fun val => negb (isEmpty val)) (ok || isNilDyn d)
          | BoolInput =>
              let '(curr, ok) :=
                match d with Some (pulumi_Bool b) => (b, true) | _ => (false, false) end in
              let params :=
                mkParams fieldName (isRequired && (isNilDyn d || (ok && negb curr)))
                  isSecret in
              extractInput cfg params getSecretBool getConfigBool fv
                (fun o => VInterface i (Some (pulumi_BoolOutput o)))
                (fun val => VInterface i (Some (pulumi_Bool val)))
                (fun val => val) (ok || isNilDyn d)
          | IntInput =>
              let '(curr, ok) :=
                match d with Some (pulumi_Int n) => (n, true) | _ => (0, false) end in
              let params :=
                mkParams fieldName (isRequired && (isNilDyn d || (ok && (curr =? 0))))
                  isSecret in
              extractInput cfg params getSecretInt getConfigInt fv
                (fun o => VInterface i (Some (pulumi_IntOutput o)))
                (fun val => VInterface i (Some (pulumi_Int val)))
                (fun val => negb (val =? 0)) (ok || isNilDyn d)
          | Float64Input =>
              let '(curr, ok) :=
                match d with
                | Some (pulumi_Float64 x) => (x, true)
                | _ => (fzero, false)
                end in
              let params :=
                mkParams fieldName (isRequired && (isNilDyn d || (ok && fIsZero curr)))
                  isSecret in
              extractInput cfg params getSecretFloat getConfigFloat fv
                (fun o => VInterface i (Some (pulumi_Float64Output o)))
                (fun val => VInterface i (Some (pulumi_Float64 val)))
                (fun val => negb (fIsZero val)) (ok || isNilDyn d)
          | OtherInterface _ => (fv, [], Continue)
          end
      | VOpaque k => (fv, [], Return (Err (ErrUnsupportedField fieldName k)))
      end
  end.

(** The loop over the fields, collecting the keys read. *)
Fixpoint extractFields (cfg : Config) (fields : list (Field GoVal))
    : list (Field GoVal) * list string * outcome :=
  match fields with
  | [] => ([], [], Nil)
  | ff :: rest =>
      let '(fv', keys, c) := extractField cfg ff in
      let ff' := mkField (fname ff) (ftag ff) fv' in
      match c with
      | Continue =>
          let '(rest', keys', o) := extractFields cfg rest in
          (ff' :: rest', keys ++ keys', o)
      | Return o => (ff' :: rest, keys, o)
      end
  end.

(** The result: the argument after the call, the configuration keys read,
    and how the call ended. *)
Definition ExtractConfig (ctx : Context) (namespace : string) (obj : Any)
    : Any * list string * outcome :=
  let cfg := config_New ctx namespace in
  match obj with
  | AVal (VPtr (VStruct fields)) =>
      let '(fields', keys, o) := extractFields cfg fields in
      (AVal (VPtr (VStruct fields')), keys, o)
  | _ => (obj, [], Err ErrObjNotStructPtr)
  end.

(** ** MarshalJSONConfig (lines 457-489) *)






End Binder.

(** ** The configuration structs of the repository *)

Definition tag (pairs : list (string * string)) : StructTag := list_to_map pairs.

(** [postgres.PostgresDbRoleProps] *)
Definition PostgresDbRoleProps : GoType :=
  TStruct [("Permission", tag [("json", "permission")], TString)].

(** [postgres.PostgresDbProps] *)
Definition PostgresDbProps : GoType :=
  TStruct [("Database", tag [("json", "database")], TString);
           ("DbRoles", tag [("json", "dbRoles")], TSlice PostgresDbRoleProps)].

(** [postgres.PostgresUserProps] *)
Definition PostgresUserProps : GoType :=
  TStruct [("Username", tag [("json", "username")], TString);
           ("Password", tag [("json", "password")], TInterface StringInput);
           ("AssumeRole", tag [("json", "assumeRole")], TInterface StringInput);
           ("Login", tag [("json", "login")], TBool)].

(** [pgProviderArg] of programs/db-postgres-creds *)
Definition pgProviderArg : GoType :=
  TStruct [("Host", tag [("required", ""); ("json", "host")], TInterface StringInput);
           ("SuperuserName", tag [("required", ""); ("json", "superuserName")],
            TInterface StringInput);
           ("SuperuserPassword", tag [("required", ""); ("secret", "superuserPassword")],
            TInterface StringInput);
           ("Port", tag [("required", ""); ("json", "port")], TInt Int);
           ("DisableSSL", tag [("json", "disableSSL")], TBool)].

(** A program's Context with project [proj] and the given configuration. *)
Definition context (pairs : list (string * string)) : Context :=
  mkContext "proj" (list_to_map pairs).

(** Casts in the manner of [spf13/cast], enough to run the binder on
    decimal integers and booleans; a failed cast gives the zero value. *)
Definition digit (c : Ascii.ascii) : option Z :=
  let n := Z.of_nat (Ascii.nat_of_ascii c) in
  if (48 <=? n) && (n <=? 57) then Some (n - 48) else None.

Fixpoint decimal (acc : Z) (s : string) : option Z :=
  match s with
  | EmptyString => Some acc
  | String c rest =>
      match digit c with
      | Some d => decimal (10 * acc + d) rest
      | None => None
      end
  end.

Definition toInt (s : string) : Z :=
  match s with
  | EmptyString => 0
  | String "-"%char rest => - default 0 (decimal 0 rest)
  | _ => default 0 (decimal 0 s)
  end.

Definition toBool (s : string) : bool :=
  if decide (s ∈ ["1"; "t"; "T"; "true"; "TRUE"; "True"]) then true else false.

Definition floatOfZ (n : Z) : float64 :=
  match n with
  | Z0 => S754_zero false
  | Zpos m => binary_round 53 1024 false m 0
  | Zneg m => binary_round 53 1024 true m 0
  end.

Definition simpleExternal : External :=
  mkExternal toBool toInt (fun s => floatOfZ (toInt s))
    (fun _ => None) (fun _ _ => None) (fun _ => None).

(** ** Targets used below *)

Definition target (fields : list (Field GoVal)) : Any := AVal (VPtr (VStruct fields)).

(** [struct { Enabled bool `config:"enabled" required:""` }] *)
Definition enabledTarget (b : bool) : Any :=
  target [mkField "Enabled" (tag [("config", "enabled"); ("required", "")]) (VBool b)].

(** [struct { Database postgres.PostgresDbProps `json:"database" required:""` }],
    the field at its zero value. *)
Definition databaseTarget : Any :=
  target [mkField "Database" (tag [("json", "database"); ("required", "")])
            (zero PostgresDbProps)].

(** [struct { Roles []postgres.PostgresDbRoleProps `secret:"roles"`;
              Owner postgres.PostgresDbProps `secret:"owner"`;
              Labels map[string]interface{} `secret:"labels"`;
              Next *postgres.PostgresDbProps `secret:"next"` }] *)
Definition secretStructuralTarget : Any :=
  target [mkField "Roles" (tag [("secret", "roles")]) (zero (TSlice PostgresDbRoleProps));
          mkField "Owner" (tag [("secret", "owner")]) (zero PostgresDbProps);
          mkField "Labels" (tag [("secret", "labels")]) (zero TMap);
          mkField "Next" (tag [("secret", "next")]) (zero (TPtr PostgresDbProps))].

(** The JSON number 2.5 *)
Definition twoAndHalf : float64 := S754_finite false 5 (-1).

(** The libraries with a decoder for the two JSON texts without a string in
    them that are used below. *)
Definition decodeEmpty (data : string) : option Json :=
  if decide (data = "{}") then Some (JObj [])
  else if decide (data = "[{}]") then Some (JArr [JObj []])
  else None.

Definition emptyJsonExternal : External :=
  mkExternal toBool toInt (fun s => floatOfZ (toInt s))
    decodeEmpty (fun _ _ => None) (fun _ => None).

(** [struct { Database postgres.PostgresDbProps `json:"database"`;
              Roles []postgres.PostgresDbRoleProps `json:"roles"` }] *)
Definition structuralFields : list (Field GoVal) :=
  [mkField "Database" (tag [("json", "database")]) (zero PostgresDbProps);
   mkField "Roles" (tag [("json", "roles")]) (zero (TSlice PostgresDbRoleProps))].

(** Optional fields holding defaults set by the caller. *)
Definition defaultedFields : list (Field GoVal) :=
  [mkField "ExportAsSecret" (tag [("json", "exportAsSecret")]) (VBool true);
   mkField "Port" (tag [("json", "port")]) (VInt Int 5432);
   mkField "Host" (tag [("json", "host")])
     (VInterface StringInput (Some (pulumi_String "localhost")));
   mkField "provider" (tag []) (VString "")].

(** [struct { Port *int `json:"port"`; Name string `json:"name"` }] *)
Definition portThenName : list (Field GoVal) :=
  [mkField "Port" (tag [("json", "port")]) (zero (TPtr (TInt Int)));
   mkField "Name" (tag [("json", "name")]) (VString "")].


(** ** Predicates of the statements *)

(** The argument is a non-nil pointer to a struct. *)
Definition isStructPtr (obj : Any) : bool :=
  match obj with
  | AVal (VPtr (VStruct _)) => true
  | _ => false
  end.

(** The field is of a structural kind: map, struct, pointer, slice or array. *)
Definition isStructural (fv : GoVal) : bool :=
  match fv with
  | VMap _ | VStruct _ | VNilPtr _ | VPtr _ | VSlice _ _ | VArray _ _ => true
  | _ => false
  end.

(** The field holds a literal wrapper of the capability of its interface. *)
Definition holdsLiteral (i : InterfaceType) (d : option Dyn) : bool :=
  match i, d with
  | StringInput, Some (pulumi_String _)
  | BoolInput, Some (pulumi_Bool _)
  | IntInput, Some (pulumi_Int _)
  | Float64Input, Some (pulumi_Float64 _) => true
  | _, _ => false
  end.

(** The field holds an unresolved handle: it is neither nil nor a literal
    wrapper of its capability. *)
Definition unresolved (i : InterfaceType) (d : option Dyn) : bool :=
  negb (isNilDyn d) && negb (holdsLiteral i d).

Definition nonZeroLiteral (d : Dyn) : bool :=
  match d with
  | pulumi_String s => negb (isEmpty s)
  | pulumi_Bool b => b
  | pulumi_Int n => negb (n =? 0)
  | pulumi_Float64 x => negb (fIsZero x)
  | _ => false
  end.

(** Every tagged field is of scalar kind. *)
Definition scalarOrSkipped (ff : Field GoVal) : bool :=
  match configFieldName (ftag ff) with
  | None => true
  | Some _ =>
      match fval ff with
      | VBool _ | VInt _ _ | VFloat _ _ | VString _ => true
      | _ => false
      end
  end.

(** An accessor pair: the required read and the optional read return the
    same value when both return one, read the same keys, and a value that is
    not the zero value shows that the key is present. *)
Definition coherent {A : Type} (get : configParams -> list string * read A)
    (nz : A -> bool) (name : string) (sec : bool) : Prop :=
  fst (get (mkParams name true sec)) = fst (get (mkParams name false sec))
  /\ (forall v, snd (get (mkParams name true sec)) = Got v ->
                snd (get (mkParams name false sec)) = Got v)
  /\ exists v, snd (get (mkParams name false sec)) = Got v
               /\ (nz v = true -> snd (get (mkParams name true sec)) = Got v).




(** A role struct with its permission set. *)
Definition roleProps (permission : string) : GoVal :=
  VStruct [mkField "Permission" (tag [("json", "permission")]) (VString permission)].

(** [pgProviderArg] with a host and a superuser password. *)
Definition providerFields (host password : option Dyn) : list (Field GoVal) :=
  [mkField "Host" (tag [("required", ""); ("json", "host")])
     (VInterface StringInput host);
   mkField "SuperuserPassword" (tag [("required", ""); ("secret", "superuserPassword")])
     (VInterface StringInput password)].

(** The scalar fields of [pgConfig] and of [pgProviderArg]. *)
Definition scalarFields : list (Field GoVal) :=
  [mkField "Database" (tag [("json", "database"); ("required", "")]) (VString "");
   mkField "ExportAsSecret" (tag [("json", "exportAsSecret")]) (VBool false);
   mkField "Port" (tag [("required", ""); ("json", "port")]) (VInt Int 0);
   mkField "provider" (tag []) (VString "")].

Definition pgContext : Context :=
  context [("pg:database", "app"); ("pg:exportAsSecret", "true"); ("pg:port", "5432");
           ("pg:host", "db.internal")].

(** The fields for which [ExtractConfig] makes the required lookup: the
    field is declared required and its value passes the test the code makes
    on it (lines 146, 155, 164, 173, 228, 240, 252, 264). *)
Definition requiresKey (ff : Field GoVal) : bool :=
  match fval ff with
  | VBool b => hasRequired (ftag ff) && b
  | VInt k n => signed k && (hasRequired (ftag ff) && (n =? 0))
  | VFloat _ x => hasRequired (ftag ff) && fIsZero x
  | VString s => hasRequired (ftag ff) && isEmpty s
  | VInterface i d =>
      hasRequired (ftag ff) &&
      match i, d with
      | StringInput, None | BoolInput, None | IntInput, None | Float64Input, None => true
      | StringInput, Some (pulumi_String s) => isEmpty s
      | BoolInput, Some (pulumi_Bool b) => negb b
      | IntInput, Some (pulumi_Int n) => n =? 0
      | Float64Input, Some (pulumi_Float64 x) => fIsZero x
      | _, _ => false
      end
  | _ => false
  end.


(** One of the four input interfaces of the pulumi SDK. *)
Definition isInput (i : InterfaceType) : bool :=
  match i with OtherInterface _ => false | _ => true end.

(** [d] is an output of the capability of [i], marked secret. *)
Definition secretOutputOf (i : InterfaceType) (d : Dyn) : bool :=
  match i, d with
  | StringInput, pulumi_StringOutput o => out_secret o
  | BoolInput, pulumi_BoolOutput o => out_secret o
  | IntInput, pulumi_IntOutput o => out_secret o
  | Float64Input, pulumi_Float64Output o => out_secret o
  | _, _ => false
  end.

(** The fields the structural JSON binder never writes (lines 340-406): a
    field without a config or json tag, a field of type [pulumi.IntInput]
    (no decoded JSON value is an [int]) or of an interface type it does not
    know, an input that holds an unresolved handle, and a field of map or of
    array kind (no branch assigns a map; [IsNil] panics on an array). *)
Definition neverBound (ff : Field GoVal) : bool :=
  match jsonFieldName (ftag ff) with
  | None => true
  | Some _ =>
      match fval ff with
      | VInterface IntInput _ | VInterface (OtherInterface _) _ => true
      | VInterface i d => unresolved i d
      | VMap _ | VArray _ _ => true
      | _ => false
      end
  end.

(** A pointer field whose key is present in [dict] with a JSON value that is
    neither an object nor an array (lines 385-389). *)
Definition pointerToScalar (dict : Dict) (ff : Field GoVal) : bool :=
  match jsonFieldName (ftag ff) with
  | None => false
  | Some name =>
      match fval ff, dictGet dict name with
      | (VPtr _ | VNilPtr _), Some (JObj _ | JArr _) => false
      | (VPtr _ | VNilPtr _), Some _ => true
      | _, _ => false
      end
  end.




(** A field of kind bool, int, int64, float64 or string: the scalar kinds
    as wide as the values the accessors return. *)
Definition wideScalar (fv : GoVal) : bool :=
  match fv with
  | VBool _ | VInt Int _ | VInt Int64 _ | VFloat Float64 _ | VString _ => true
  | _ => false
  end.

(** * The postgres components (components/postgres, components/utils) *)

Module postgres.

(** ** The engine *)

(** [pulumi.Parent(r)]: the component, by the type and the name it was
    registered with; every other option is the caller's. *)
Inductive ResourceOption :=
  | Parent (token name : string)
  | Provider (name : string).

Record RoleArgs := mkRoleArgs {
  role_Name : Dyn;
  role_Password : option Dyn;
  role_Login : bool;
  role_AssumeRole : option Dyn;
  role_Roles : option (list (option Dyn))
}.

Record DatabaseArgs := mkDatabaseArgs {
  db_Name : Dyn;
  db_Owner : Dyn
}.

Record GrantArgs := mkGrantArgs {
  grant_Database : Dyn;
  grant_ObjectType : string;
  grant_Objects : option (list string);
  grant_Privileges : list string;
  grant_Role : Dyn;
  grant_Schema : option string
}.

Record RandomPasswordArgs := mkRandomPasswordArgs {
  Length : Z;
  OverrideSpecial : string
}.

(** What a constructor of the SDKs registers. *)
Inductive Args :=
  | RegisterComponentResource (token : string)
  | postgresql_NewRole (args : RoleArgs)
  | postgresql_NewDatabase (args : DatabaseArgs)
  | postgresql_NewGrant (args : GrantArgs)
  | random_NewRandomPassword (args : RandomPasswordArgs).

Record Request := mkRequest {
  req_name : string;
  req_args : Args;
  req_opts : list ResourceOption
}.

(** A value of a [pulumi.Map]. *)
Inductive MapInput :=
  | MNil
  | MString (d : Dyn)
  | MMap (m : list (string * MapInput))
  | MArray (a : list MapInput).

(** What the calls on [ctx] have done so far: the registrations the engine
    took, in order, and the outputs registered for the components. *)
Record Deployment := mkDeployment {
  registered : list Request;
  outputs : list (string * string * list (string * MapInput))
}.

(** The engine and the providers are outside the repository: whether a
    constructor returns an error, given what was registered before, and the
    handle on an output property of a resource. *)
Record Engine := mkEngine {
  rejects : list Request -> Request -> bool;
  property : Request -> string -> Output string
}.

Inductive error :=
  | ErrInvalidPermission (permission : string)
  | ErrTooManyRoles
  | ErrEngine (req : Request).

Inductive panic :=
  | NilDereference
  | IndexOutOfRange (i : nat).

Inductive outcome :=
  | Nil
  | Err (e : error)
  | Panic (p : panic).

(** ** The props (database.go lines 11-55, users.go lines 18-31) *)

Definition PostgresUserPermission := string.
Definition ReadWrite : PostgresUserPermission := "rw".
Definition ReadOnly : PostgresUserPermission := "ro".

Record PostgresDbRoleProps := mkDbRoleProps {
  Permission : PostgresUserPermission
}.

Record PostgresDbProps := mkDbProps {
  Database : string;
  DbRoles : list PostgresDbRoleProps
}.

Record PostgresUserProps := mkUserProps {
  Username : string;
  Password : option Dyn;
  AssumeRole : option Dyn;
  Login : bool
}.

(** The resources: a registered resource is known by its registration. *)
Record PostgresDBResource := mkDBResource {
  db_ResourceState : string;
  Roles : list (option Request);
  DB : option Request
}.

Record PostgresUsersResource := mkUsersResource {
  users_ResourceState : string;
  Users : list Request;
  FailedUser : string
}.

Section Components.

Variable eng : Engine.

(** A constructor of an SDK: the resource, or the error. *)
Definition register (ctx : Deployment) (req : Request) : Deployment * (Request + error) :=
  if rejects eng (registered ctx) req then (ctx, inr (ErrEngine req))
  else (mkDeployment (registered ctx ++ [req]) (outputs ctx), inl req).

Definition RegisterResourceOutputs (ctx : Deployment) (token name : string)
    (outs : list (string * MapInput)) : Deployment :=
  mkDeployment (registered ctx) (outputs ctx ++ [(token, name, outs)]).

(** [role.Name], [db.Name], [role.Password], [passwd.Result] *)
Definition Name (res : Request) : Dyn := pulumi_StringOutput (property eng res "name").
Definition PasswordOf (res : Request) : Dyn :=
  pulumi_StringOutput (property eng res "password").
Definition Result (res : Request) : Dyn := pulumi_StringOutput (property eng res "result").

(** ** database.go *)

(** lines 35-40 *)
Definition PostgresDbRoleProps_fillRuntimeInputs (props : PostgresDbRoleProps)
    : option error :=
  if decide (Permission props <> ReadOnly /\ Permission props <> ReadWrite)
  then Some (ErrInvalidPermission (Permission props))
  else None.

(** The loop of lines 49-53. *)
Fixpoint fillRoles (roles : list PostgresDbRoleProps) : option error :=
  match roles with
  | [] => None
  | role :: rest =>
      match PostgresDbRoleProps_fillRuntimeInputs role with
      | Some err => Some err
      | None => fillRoles rest
      end
  end.

(** lines 42-55: the props after the call and the error. *)
Definition PostgresDbProps_fillRuntimeInputs (props : PostgresDbProps)
    : PostgresDbProps * option error :=
  let props :=
    if (length (DbRoles props) =? 0)%nat
    then mkDbProps (Database props) [mkDbRoleProps ReadWrite]
    else props in
  if (2 <? length (DbRoles props))%nat then (props, Some ErrTooManyRoles)
  else (props, fillRoles (DbRoles props)).

Definition dbToken : string := "ss9:postgres:database".

(** lines 64-74 *)
Definition provisionDB (ctx : Deployment) (r : PostgresDBResource) (namePrefix : string)
    (roleName : Dyn) (props : PostgresDbProps) : Deployment * (Request + error) :=
  register ctx
    (mkRequest (namePrefix +:+ "-db")
       (postgresql_NewDatabase (mkDatabaseArgs (pulumi_String (Database props)) roleName))
       [Parent dbToken (db_ResourceState r)]).

(** lines 164-174 *)
Definition provisionUser (ctx : Deployment) (r : PostgresDBResource) (name : string)
    (props : PostgresDbRoleProps) : Deployment * (Request + error) :=
  let roleName := name +:+ "-" +:+ Permission props in
  register ctx
    (mkRequest roleName
       (postgresql_NewRole (mkRoleArgs (pulumi_String roleName) None false None None))
       [Parent dbToken (db_ResourceState r)]).

(** The four grants of a read-only role (lines 109-148), in order. *)
Definition readOnlyGrants (r : PostgresDBResource) (namePrefix : string)
    (database roleName : Dyn) : list Request :=
  [mkRequest (namePrefix +:+ "-readOnlyTables")
     (postgresql_NewGrant (mkGrantArgs database "table" (Some []) ["SELECT"] roleName (Some "public")))
     [Parent dbToken (db_ResourceState r)];
   mkRequest (namePrefix +:+ "-readOnlySequences")
     (postgresql_NewGrant (mkGrantArgs database "sequence" (Some []) ["SELECT"] roleName (Some "public")))
     [Parent dbToken (db_ResourceState r)];
   mkRequest (namePrefix +:+ "-connectDatabase")
     (postgresql_NewGrant (mkGrantArgs database "database" None ["CONNECT"] roleName None))
     [Parent dbToken (db_ResourceState r)];
   mkRequest (namePrefix +:+ "-usageSchema")
     (postgresql_NewGrant (mkGrantArgs database "schema" None ["USAGE"] roleName (Some "public")))
     [Parent dbToken (db_ResourceState r)]].

(** Constructors called one after the other, each returning at an error. *)
Fixpoint registerAll (ctx : Deployment) (reqs : list Request) : Deployment * outcome :=
  match reqs with
  | [] => (ctx, Nil)
  | req :: rest =>
      match register ctx req with
      | (ctx, inr err) => (ctx, Err err)
      | (ctx, inl _) => registerAll ctx rest
      end
  end.

(** lines 105-162 *)
Definition grantDBAccess (ctx : Deployment) (r : PostgresDBResource) (namePrefix : string)
    (roleName : Dyn) (userProps : PostgresDbRoleProps) : Deployment * outcome :=
  match DB r with
  | None => (ctx, Panic NilDereference)
  | Some db =>
      let database := Name db in
      if decide (Permission userProps = ReadOnly)
      then registerAll ctx (readOnlyGrants r namePrefix database roleName)
      else (ctx, Nil)
  end.

(** The loop of lines 82-91: [i] is the index of the head of [users]. *)
Fixpoint rolesLoop (namePrefix : string) (i : nat) (users : list PostgresDbRoleProps)
    (ctx : Deployment) (r : PostgresDBResource) (owner : Dyn)
    : Deployment * PostgresDBResource * Dyn * outcome :=
  match users with
  | [] => (ctx, r, owner, Nil)
  | user :: rest =>
      match provisionUser ctx r namePrefix user with
      | (ctx, inr err) => (ctx, r, owner, Err err)
      | (ctx, inl role) =>
          if (i <? length (Roles r))%nat then
            let r := mkDBResource (db_ResourceState r) (<[i := Some role]> (Roles r)) (DB r) in
            let owner := if decide (Permission user = ReadWrite) then Name role else owner in
            rolesLoop namePrefix (S i) rest ctx r owner
          else (ctx, r, owner, Panic (IndexOutOfRange i))
      end
  end.

(** The loop of lines 97-101 over [r.Roles]. *)
Fixpoint grantsLoop (namePrefix : string) (props : PostgresDbProps) (i : nat)
    (roles : list (option Request)) (ctx : Deployment) (r : PostgresDBResource)
    : Deployment * outcome :=
  match roles with
  | [] => (ctx, Nil)
  | role :: rest =>
      match role with
      | None => (ctx, Panic NilDereference)
      | Some role =>
          match DbRoles props !! i with
          | None => (ctx, Panic (IndexOutOfRange i))
          | Some userProps =>
              match grantDBAccess ctx r namePrefix (Name role) userProps with
              | (ctx, Nil) => grantsLoop namePrefix props (S i) rest ctx r
              | (ctx, o) => (ctx, o)
              end
          end
      end
  end.

(** lines 76-103: the deployment, the resource and the props after the call. *)
Definition PostgresDBResource_provision (ctx : Deployment) (r : PostgresDBResource)
    (namePrefix : string) (props : PostgresDbProps)
    : Deployment * PostgresDBResource * PostgresDbProps * outcome :=
  match PostgresDbProps_fillRuntimeInputs props with
  | (props, Some err) => (ctx, r, props, Err err)
  | (props, None) =>
      let owner := pulumi_String "postgres" in
      let r := mkDBResource (db_ResourceState r)
                 (replicate (length (DbRoles props)) None) (DB r) in
      match rolesLoop namePrefix 0 (DbRoles props) ctx r owner with
      | (ctx, r, owner, Nil) =>
          match provisionDB ctx r namePrefix owner props with
          | (ctx, inr err) => (ctx, r, props, Err err)
          | (ctx, inl db) =>
              let r := mkDBResource (db_ResourceState r) (Roles r) (Some db) in
              let '(ctx, o) := grantsLoop namePrefix props 0 (Roles r) ctx r in
              (ctx, r, props, o)
          end
      | (ctx, r, _, o) => (ctx, r, props, o)
      end
  end.

(** The loop of lines 194-198 over [resource.Roles]. *)
Fixpoint databaseOutputRoles (roles : list (option Request)) (outputRoles : list MapInput)
    : list MapInput + panic :=
  match roles with
  | [] => inl outputRoles
  | None :: _ => inr NilDereference
  | Some role :: rest =>
      databaseOutputRoles rest (outputRoles ++ [MMap [("username", MString (Name role))]])
  end.

(** lines 176-204: the deployment after the call, the resource returned
    ([None] is the nil pointer) and the error. *)
Definition NewPostgresDatabase (ctx : Deployment) (name : string) (props : PostgresDbProps)
    (opts : list ResourceOption) : Deployment * option PostgresDBResource * outcome :=
  let resource := mkDBResource name [] None in
  match register ctx (mkRequest name (RegisterComponentResource dbToken) opts) with
  | (ctx, inr err) => (ctx, None, Err err)
  | (ctx, inl _) =>
      match PostgresDBResource_provision ctx resource name props with
      | (ctx, resource, _, Nil) =>
          let outputRoles := replicate (length (Roles resource)) MNil in
          match databaseOutputRoles (Roles resource) outputRoles, DB resource with
          | inr p, _ => (ctx, Some resource, Panic p)
          | inl _, None => (ctx, Some resource, Panic NilDereference)
          | inl outputRoles, Some db =>
              (RegisterResourceOutputs ctx dbToken name
                 [("database", MString (Name db)); ("users", MArray outputRoles)],
               Some resource, Nil)
          end
      | (ctx, resource, _, o) => (ctx, Some resource, o)
      end
  end.

(** ** utils.NewRandomPassword and users.go *)

Definition usersToken : string := "ss9:postgres:users".

(** [pulumi.StringOutput{}] *)
Definition noOutput : Dyn := pulumi_StringOutput (mkOutput "" false).

(** components/utils: the output and the error. *)
Definition NewRandomPassword (ctx : Deployment) (name : string) (len : Z)
    (opts : list ResourceOption) : Deployment * Dyn * option error :=
  match register ctx
          (mkRequest name
             (random_NewRandomPassword (mkRandomPasswordArgs len "!#$%&*()-_=+[]{}<>:?")) opts) with
  | (ctx, inr err) => (ctx, noOutput, Some err)
  | (ctx, inl passwd) => (ctx, Result passwd, None)
  end.

(** users.go lines 25-31 *)
Definition PostgresUserProps_fillRuntimeInputs (ctx : Deployment)
    (props : PostgresUserProps) (res : PostgresUsersResource)
    : Deployment * PostgresUserProps * option error :=
  match Password props with
  | None =>
      let '(ctx, password, err) :=
        NewRandomPassword ctx (Username props +:+ "-" +:+ "password") 16
          [Parent usersToken (users_ResourceState res)] in
      (ctx, mkUserProps (Username props) (Some password) (AssumeRole props) (Login props),
       err)
  | Some _ => (ctx, props, None)
  end.

(** users.go lines 33-50 *)
Definition PostgresUsersResource_provision (ctx : Deployment) (r : PostgresUsersResource)
    (name : string) (props : PostgresUserProps)
    : Deployment * PostgresUsersResource * PostgresUserProps * option error :=
  match PostgresUserProps_fillRuntimeInputs ctx props r with
  | (ctx, props, Some err) => (ctx, r, props, Some err)
  | (ctx, props, None) =>
      match register ctx
              (mkRequest (name +:+ "-" +:+ Username props)
                 (postgresql_NewRole (mkRoleArgs (pulumi_String (Username props)) (Password props)
                          (Login props) (AssumeRole props) (Some [AssumeRole props])))
                 [Parent usersToken (users_ResourceState r)]) with
      | (ctx, inr err) => (ctx, r, props, Some err)
      | (ctx, inl role) =>
          (ctx, mkUsersResource (users_ResourceState r) (Users r ++ [role]) (FailedUser r),
           props, None)
      end
  end.

(** The loop of users.go lines 57-63; [prop] is a copy of the element. *)
Fixpoint usersLoop (name : string) (props : list PostgresUserProps) (ctx : Deployment)
    (resource : PostgresUsersResource) : Deployment * PostgresUsersResource * option error :=
  match props with
  | [] => (ctx, resource, None)
  | prop :: rest =>
      match PostgresUsersResource_provision ctx resource name prop with
      | (ctx, resource, _, Some err) =>
          (ctx, mkUsersResource (users_ResourceState resource) (Users resource)
                  (Username prop), Some err)
      | (ctx, resource, _, None) => usersLoop name rest ctx resource
      end
  end.

(** The loop of users.go lines 66-71. *)
Definition usersOutputRoles (users : list Request) (outputRoles : list MapInput)
    : list MapInput :=
  foldl (fun outputRoles role =>
           outputRoles ++ [MMap [("username", MString (Name role));
                                 ("password", MString (PasswordOf role))]])
    outputRoles users.

(** users.go lines 52-76 *)
Definition NewPostgresUsers (ctx : Deployment) (name : string)
    (props : list PostgresUserProps) (opts : list ResourceOption)
    : Deployment * option PostgresUsersResource * option error :=
  let resource := mkUsersResource name [] "" in
  match register ctx (mkRequest name (RegisterComponentResource usersToken) opts) with
  | (ctx, inr err) => (ctx, None, Some err)
  | (ctx, inl _) =>
      match usersLoop name props ctx resource with
      | (ctx, resource, Some err) => (ctx, Some resource, Some err)
      | (ctx, resource, None) =>
          let outputRoles := replicate (length (Users resource)) MNil in
          let outputRoles := usersOutputRoles (Users resource) outputRoles in
          (RegisterResourceOutputs ctx usersToken name [("users", MArray outputRoles)],
           Some resource, None)
      end
  end.

End Components.

End postgres.

(** ** Predicates of the statements on the components *)

(** The permission is one of the two the component knows. *)
Definition knownPermission (role : postgres.PostgresDbRoleProps) : bool :=
  bool_decide (postgres.Permission role = postgres.ReadOnly)
  || bool_decide (postgres.Permission role = postgres.ReadWrite).

(** The registration of the role of a permission, for the component
    registered as [component]. *)
Definition roleRequest (component namePrefix : string)
    (user : postgres.PostgresDbRoleProps) : postgres.Request :=
  postgres.mkRequest (namePrefix +:+ "-" +:+ postgres.Permission user)
    (postgres.postgresql_NewRole
       (postgres.mkRoleArgs
          (pulumi_String (namePrefix +:+ "-" +:+ postgres.Permission user))
          None false None None))
    [postgres.Parent postgres.dbToken component].

(** The owner of the database: the read-write role when there is one. *)
Definition ownerOf (eng : postgres.Engine) (component namePrefix : string)
    (roles : list postgres.PostgresDbRoleProps) : Dyn :=
  if existsb (fun user => bool_decide (postgres.Permission user = postgres.ReadWrite)) roles
  then postgres.Name eng
         (roleRequest component namePrefix (postgres.mkDbRoleProps postgres.ReadWrite))
  else pulumi_String "postgres".

Definition databaseRequest (component namePrefix database : string) (owner : Dyn)
    : postgres.Request :=
  postgres.mkRequest (namePrefix +:+ "-db")
    (postgres.postgresql_NewDatabase
       (postgres.mkDatabaseArgs (pulumi_String database) owner))
    [postgres.Parent postgres.dbToken component].

(** The grants of a role: four for a read-only role, none for another. *)
Definition grantsOf (eng : postgres.Engine) (r : postgres.PostgresDBResource)
    (namePrefix : string) (db : postgres.Request) (user : postgres.PostgresDbRoleProps)
    : list postgres.Request :=
  if bool_decide (postgres.Permission user = postgres.ReadOnly)
  then postgres.readOnlyGrants r namePrefix (postgres.Name eng db)
         (postgres.Name eng (roleRequest (postgres.db_ResourceState r) namePrefix user))
  else [].

(** What [provision] registers for a database when nothing fails: the
    roles, the database, then the grants. *)
Definition planned (eng : postgres.Engine) (r : postgres.PostgresDBResource)
    (namePrefix : string) (props : postgres.PostgresDbProps) : list postgres.Request :=
  let component := postgres.db_ResourceState r in
  let db := databaseRequest component namePrefix (postgres.Database props)
              (ownerOf eng component namePrefix (postgres.DbRoles props)) in
  map (roleRequest component namePrefix) (postgres.DbRoles props)
  ++ [db] ++ concat (map (grantsOf eng r namePrefix db) (postgres.DbRoles props)).

(** The registrations for a login user of the component registered as
    [component]: a random password of length 16 when the props give none,
    then the role. *)
Definition passwordRequest (component : string) (prop : postgres.PostgresUserProps)
    : postgres.Request :=
  postgres.mkRequest (postgres.Username prop +:+ "-" +:+ "password")
    (postgres.random_NewRandomPassword
       (postgres.mkRandomPasswordArgs 16 "!#$%&*()-_=+[]{}<>:?"))
    [postgres.Parent postgres.usersToken component].

Definition userRole (eng : postgres.Engine) (component name : string)
    (prop : postgres.PostgresUserProps) : postgres.Request :=
  postgres.mkRequest (name +:+ "-" +:+ postgres.Username prop)
    (postgres.postgresql_NewRole
       (postgres.mkRoleArgs (pulumi_String (postgres.Username prop))
          (Some (default (postgres.Result eng (passwordRequest component prop))
                   (postgres.Password prop)))
          (postgres.Login prop) (postgres.AssumeRole prop)
          (Some [postgres.AssumeRole prop])))
    [postgres.Parent postgres.usersToken component].

Definition userPlan (eng : postgres.Engine) (component name : string)
    (prop : postgres.PostgresUserProps) : list postgres.Request :=
  match postgres.Password prop with
  | None => [passwordRequest component prop; userRole eng component name prop]
  | Some _ => [userRole eng component name prop]
  end.

(** The entry of a role in the outputs of the users component. *)
Definition userOutput (eng : postgres.Engine) (role : postgres.Request) : postgres.MapInput :=
  postgres.MMap [("username", postgres.MString (postgres.Name eng role));
                 ("password", postgres.MString (postgres.PasswordOf eng role))].

(** * The program (programs/db-postgres-creds/main.go) *)

Module creds.

Record pgProviderArg := mkProviderArg {
  Host : option Dyn;
  SuperuserName : option Dyn;
  SuperuserPassword : option Dyn;
  Port : Z;
  DisableSSL : bool
}.

Record pgUserArg := mkUserArg {
  Username : string;
  Login : bool
}.

Record pgConfig := mkConfig {
  Database : string;
  Users : list pgUserArg;
  ExportAsSecret : bool;
  provider : pgProviderArg
}.

(** [pulumi.Sprintf] on plain arguments: the output of the formatted
    string. *)
Definition Sprintf (s : string) : Dyn := pulumi_StringOutput (mkOutput s false).

Section Program.

Variable eng : postgres.Engine.

(** lines 34-44 *)
Definition provisionDatabase (ctx : postgres.Deployment) (cfg : pgConfig)
    (provider : string)
    : postgres.Deployment * option postgres.PostgresDBResource * postgres.outcome :=
  let dbProps := postgres.mkDbProps (Database cfg) [] in
  postgres.NewPostgresDatabase eng ctx (Database cfg) dbProps [postgres.Provider provider].

(** lines 46-60 *)
Definition provisionLoginUsers (ctx : postgres.Deployment) (cfg : pgConfig)
    (provider : string)
    : postgres.Deployment * option postgres.PostgresUsersResource * option postgres.error :=
  let userProps :=
    map (fun user =>
           postgres.mkUserProps (Username user) None
             (Some (Sprintf (Database cfg +:+ "-rw"))) (Login user))
      (Users cfg) in
  postgres.NewPostgresUsers eng ctx (Database cfg) userProps [postgres.Provider provider].


End Program.

End creds.

(** The props [provisionLoginUsers] makes for a user. *)
Definition loginProps (cfg : creds.pgConfig) (user : creds.pgUserArg)
    : postgres.PostgresUserProps :=
  postgres.mkUserProps (creds.Username user) None
    (Some (creds.Sprintf (creds.Database cfg +:+ "-rw"))) (creds.Login user).

(** An engine that takes every registration but those named [name]. *)
Definition rejecting (name : string) : postgres.Engine :=
  postgres.mkEngine (fun _ req => bool_decide (postgres.req_name req = name))
    (fun req prop => mkOutput (postgres.req_name req +:+ "." +:+ prop) false).

Definition emptyDeployment : postgres.Deployment := postgres.mkDeployment [] [].

(** The config of the database app with the login users alice and bob. *)
Definition appConfig : creds.pgConfig :=
  creds.mkConfig "app" [creds.mkUserArg "alice" true; creds.mkUserArg "bob" false] false
    (creds.mkProviderArg (Some (pulumi_String "db.internal")) None None 5432 false).

(** * Properties *)

(** ** The arguments the entry points accept *)

Lemma unmarshallJSONMap_body_not_struct rmap rarr dict obj :
  isStructPtr obj = false ->
  unmarshallJSONMap_body rmap rarr dict obj = (obj, Err ErrObjNotStructPtr).
Proof.
  intros H. unfold unmarshallJSONMap_body.
  destruct obj as [|v|d]; try reflexivity.
  destruct v as [| | | | | |fields|elem|pointee|elem s|elem a|i d]; try reflexivity.
  destruct pointee; try reflexivity. discriminate H.
Qed.

(** C10: an argument that is not a non-nil pointer to a struct is rejected
    by [ExtractConfig] and by [unmarshallJSONMap] with the error "obj must be
    a pointer to a struct"; no configuration key is read and the argument is
    returned as it was. *)
Theorem entry_points_reject_non_struct_pointer ext ctx namespace dict obj :
  isStructPtr obj = false ->
  ExtractConfig ext ctx namespace obj = (obj, [], Err ErrObjNotStructPtr)
  /\ unmarshallJSONMap dict obj = (obj, Err ErrObjNotStructPtr).
Proof.
  intros H. split.
  - unfold ExtractConfig.
    destruct obj as [|v|d]; try reflexivity.
    destruct v as [| | | | | |fields|elem|pointee|elem s|elem a|i d]; try reflexivity.
    destruct pointee; try reflexivity. discriminate H.
  - unfold unmarshallJSONMap. cbn [depth unmarshallJSONMap_fuel].
    now apply unmarshallJSONMap_body_not_struct.
Qed.

(** ** Requiredness *)

(** C2: a bool field that is required and already [true] is looked up with
    [RequireBool]: without an entry for its key the call panics on the missing
    key, although the field holds a non-zero value. *)
Theorem required_true_bool_is_required ext :
  ExtractConfig ext (context []) "" (enabledTarget true)
  = (enabledTarget true, ["proj:enabled"], Panic (MissingConfig "proj:enabled"))
  /\ ExtractConfig ext (context []) "" (enabledTarget false)
    = (enabledTarget false, ["proj:enabled"], Nil).
Proof. split; reflexivity. Qed.

(** C4: a required struct field at its zero value, with no entry for its
    key: the call returns a nil error and leaves the field as it was.
    [loadJsonConfig] gives its "is required" error only for a nil [curr],
    and [ExtractConfig] passes it a pointer or a map. *)
Theorem required_struct_field_not_enforced ext :
  ExtractConfig ext (context []) "pg" databaseTarget
  = (databaseTarget, ["pg:database"], Nil)
  /\ forall cfg fieldName isRequired v,
       snd (loadJsonConfig cfg fieldName isRequired (AVal v))
       <> inr (ErrConfigRequired fieldName).
Proof.
  split; [reflexivity|].
  intros cfg name req v. unfold loadJsonConfig, cfg_Get.
  rewrite andb_false_r. cbn [andb].
  destruct (isEmpty _); discriminate.
Qed.

(** C6: fields of slice, struct, map and pointer kind named by a secret tag
    are bound like any other structural field; the call returns a nil
    error.  No field of structural kind ever gets the error of a secret tag
    on a field that is not an output. *)
Theorem secret_tag_on_structural_fields_accepted ext :
  ExtractConfig ext (context []) "pg" secretStructuralTarget
  = (secretStructuralTarget, ["pg:roles"; "pg:owner"; "pg:labels"; "pg:next"], Nil)
  /\ forall cfg ff fieldName,
       configFieldName (ftag ff) = Some (fieldName, true) ->
       isStructural (fval ff) = true ->
       snd (extractField ext cfg ff) <> Return (Err (ErrSecretNotOutput fieldName)).
Proof.
  split; [reflexivity|].
  intros cfg ff name Hn Hk. unfold extractField. rewrite Hn.
  assert (Hs : forall fv,
    snd (extractStructural ext cfg name (hasRequired (ftag ff)) fv)
    <> Return (Err (ErrSecretNotOutput name))).
  { intros fv. unfold extractStructural.
    destruct (match fv with
              | VPtr _ => (fv, true)
              | VNilPtr elem => (VPtr (zero elem), false)
              | _ => if negb (IsZero fv) then (Addr fv, true)
                     else (VPtr (zero (typeOf fv)), false)
              end) as [val inPlace].
    destruct (loadJsonConfig cfg name (hasRequired (ftag ff)) (Interface val))
      as [keys [data|err]].
    - destruct (UnmarshalJSONConfig ext data (Interface val)) as [obj' o].
      destruct o; discriminate.
    - destruct err; discriminate. }
  destruct (fval ff) as [| | | | |m| | | | | |]; try discriminate Hk; try apply Hs.
  destruct (loadJsonConfig cfg name (hasRequired (ftag ff)) (Interface (VMap m)))
    as [keys [bytes|err]].
  - destruct (json_UnmarshalMap ext bytes m); discriminate.
  - destruct err; discriminate.
Qed.

(** C7: a JSON array under the key of a struct field, and an array element
    that is not a JSON object, make the type assertion panic: no error is
    returned to the caller. *)
Theorem shape_mismatch_panics :
  snd (unmarshallJSONMap [("database", JArr [])] databaseTarget)
  = Panic (TypeAssertion "map[string]interface {}" (JArr []))
  /\ snd (unmarshallJSONArray [JNum twoAndHalf]
           (AVal (VPtr (zero (TSlice PostgresDbRoleProps)))))
    = Panic (TypeAssertion "map[string]interface {}" (JNum twoAndHalf)).
Proof. split; reflexivity. Qed.

(** ** setFieldValue *)



(** ** Input-interface fields *)

(** Each field of the result of the loop is the field the loop started
    with or what the body made of it. *)
Lemma extractFields_lookup ext cfg fields :
  forall fields' keys o k ff,
    extractFields ext cfg fields = (fields', keys, o) ->
    fields !! k = Some ff ->
    exists fv',
      fields' !! k = Some (mkField (fname ff) (ftag ff) fv')
      /\ (fv' = fval ff \/ exists keys' c, extractField ext cfg ff = (fv', keys', c)).
Proof.
  induction fields as [|f rest IH]; intros fields' keys o k ff Hrun Hk.
  - destruct k; discriminate Hk.
  - cbn [extractFields] in Hrun.
    destruct (extractField ext cfg f) as [[fv1 keys1] c] eqn:Hf.
    destruct k as [|k].
    + injection Hk as ->. exists fv1.
      destruct c as [|o1].
      * destruct (extractFields ext cfg rest) as [[rest' keys'] o'].
        injection Hrun as <- _ _. split; [reflexivity|]. right. eauto.
      * injection Hrun as <- _ _. split; [reflexivity|]. right. eauto.
    + cbn in Hk. destruct c as [|o1].
      * destruct (extractFields ext cfg rest) as [[rest' keys'] o'] eqn:Hrest.
        injection Hrun as <- _ _.
        destruct (IH _ _ _ _ _ eq_refl Hk) as (fv' & Hl & Hv).
        exists fv'. split; [exact Hl|exact Hv].
      * injection Hrun as <- _ _. exists (fval ff). split; [|now left].
        cbn. rewrite Hk. now destruct ff.
Qed.

Lemma extractInput_plain {A : Type} cfg name req getSecret
    (getConfig : Config -> configParams -> list string * read A)
    fv output literal nonZero okOrNil fv' keys c :
  extractInput cfg (mkParams name req false) getSecret getConfig fv
    output literal nonZero okOrNil = (fv', keys, c) ->
  fv' = fv
  \/ exists val, fv' = literal val /\ nonZero val = true /\ okOrNil = true.
Proof.
  unfold extractInput. cbn [isSecret].
  destruct (snd (getConfig cfg _)) as [val|p].
  - destruct (nonZero val) eqn:Hnz; destruct okOrNil; cbn [andb];
      intros [= <- _ _]; eauto.
  - intros [= <- _ _]. now left.
Qed.

(** What [ExtractConfig] does to a field of input-interface type that is not
    secret. *)
Lemma extractField_input ext cfg ff i d name fv' keys c :
  fval ff = VInterface i d ->
  configFieldName (ftag ff) = Some (name, false) ->
  extractField ext cfg ff = (fv', keys, c) ->
  fv' = fval ff
  \/ exists lit, fv' = VInterface i (Some lit)
       /\ holdsLiteral i (Some lit) = true
       /\ nonZeroLiteral lit = true
       /\ (isNilDyn d || holdsLiteral i d) = true.
Proof.
  intros Hv Hn. unfold extractField. rewrite Hn, Hv.
  destruct i.
  - destruct (match d with Some (pulumi_String s) => (s, true) | _ => ("", false) end)
      as [curr ok] eqn:Hc.
    intros Hrun. apply extractInput_plain in Hrun as [->|(val & -> & Hnz & Hok)];
      [now left|right].
    exists (pulumi_String val). repeat split; try assumption.
    destruct d as [[]|]; injection Hc as <- <-; cbn in *; congruence.
  - destruct (match d with Some (pulumi_Bool b) => (b, true) | _ => (false, false) end)
      as [curr ok] eqn:Hc.
    intros Hrun. apply extractInput_plain in Hrun as [->|(val & -> & Hnz & Hok)];
      [now left|right].
    exists (pulumi_Bool val). repeat split; try assumption.
    destruct d as [[]|]; injection Hc as <- <-; cbn in *; congruence.
  - destruct (match d with Some (pulumi_Int n) => (n, true) | _ => (0, false) end)
      as [curr ok] eqn:Hc.
    intros Hrun. apply extractInput_plain in Hrun as [->|(val & -> & Hnz & Hok)];
      [now left|right].
    exists (pulumi_Int val). repeat split; try assumption.
    destruct d as [[]|]; injection Hc as <- <-; cbn in *; congruence.
  - destruct (match d with Some (pulumi_Float64 x) => (x, true) | _ => (fzero, false) end)
      as [curr ok] eqn:Hc.
    intros Hrun. apply extractInput_plain in Hrun as [->|(val & -> & Hnz & Hok)];
      [now left|right].
    exists (pulumi_Float64 val). repeat split; try assumption.
    destruct d as [[]|]; injection Hc as <- <-; cbn in *; congruence.
  - intros [= <- _ _]. now left.
Qed.

(** C8: a non-secret field of input-interface type that holds an unresolved
    handle comes out of [ExtractConfig] as it went in, whatever the
    configuration holds and however the call ends; such a field is assigned
    a literal wrapper only when the value read is non-zero and the field was
    nil or held a literal wrapper. *)
Theorem unresolved_handle_kept ext ctx namespace fields k ff i d name :
  fields !! k = Some ff ->
  fval ff = VInterface i d ->
  configFieldName (ftag ff) = Some (name, false) ->
  exists fields' keys o fv',
    ExtractConfig ext ctx namespace (target fields) = (target fields', keys, o)
    /\ fields' !! k = Some (mkField (fname ff) (ftag ff) fv')
    /\ (unresolved i d = true -> fv' = fval ff)
    /\ (fv' = fval ff
        \/ exists lit, fv' = VInterface i (Some lit)
             /\ holdsLiteral i (Some lit) = true
             /\ nonZeroLiteral lit = true
             /\ (isNilDyn d || holdsLiteral i d) = true).
Proof.
  intros Hk Hv Hn. unfold ExtractConfig, target.
  destruct (extractFields ext (config_New ctx namespace) fields)
    as [[fields' keys] o] eqn:Hrun.
  destruct (extractFields_lookup _ _ _ _ _ _ _ _ Hrun Hk) as (fv' & Hl & Hfv).
  exists fields', keys, o, fv'. split; [reflexivity|]. split; [exact Hl|].
  assert (Hcases : fv' = fval ff
        \/ exists lit, fv' = VInterface i (Some lit)
             /\ holdsLiteral i (Some lit) = true
             /\ nonZeroLiteral lit = true
             /\ (isNilDyn d || holdsLiteral i d) = true).
  { destruct Hfv as [->|(keys' & c & Hf)]; [now left|].
    eapply extractField_input; eassumption. }
  split; [|exact Hcases].
  intros Hun. destruct Hcases as [->|(lit & _ & _ & _ & Hor)]; [reflexivity|].
  unfold unresolved in Hun.
  destruct (isNilDyn d); destruct (holdsLiteral i d); discriminate.
Qed.

(** ** Scalar fields *)

Lemma getConfigString_coherent cfg name sec :
  coherent (getConfigString cfg) (fun val => negb (isEmpty val)) name sec.
Proof.
  unfold coherent, getConfigString, optional, cfg_Require, cfg_Get. cbn.
  destruct (ctxConfig (cfg_ctx cfg) !! fullKey cfg name) as [v|]; cbn.
  - split; [reflexivity|]. split; [auto|]. eauto.
  - split; [reflexivity|]. split; [discriminate|]. exists "". split; [reflexivity|].
    discriminate.
Qed.

Lemma getConfigBool_coherent ext cfg name sec :
  coherent (getConfigBool ext cfg) (fun val => val) name sec.
Proof.
  unfold coherent, getConfigBool, optional, cfg_RequireBool, cfg_GetBool, readMap,
    cfg_Require, cfg_Get. cbn.
  destruct (ctxConfig (cfg_ctx cfg) !! fullKey cfg name) as [v|]; cbn.
  - split; [reflexivity|]. split; [auto|]. eauto.
  - split; [reflexivity|]. split; [discriminate|]. exists false. split; [reflexivity|].
    discriminate.
Qed.

Lemma getConfigInt_coherent ext cfg name sec :
  coherent (getConfigInt ext cfg) (fun val => negb (val =? 0)) name sec.
Proof.
  unfold coherent, getConfigInt, optional, cfg_RequireInt, cfg_GetInt, readMap,
    cfg_Require, cfg_Get. cbn.
  destruct (ctxConfig (cfg_ctx cfg) !! fullKey cfg name) as [v|]; cbn.
  - split; [reflexivity|]. split; [auto|]. eauto.
  - split; [reflexivity|]. split; [discriminate|]. exists 0. split; [reflexivity|].
    discriminate.
Qed.

Lemma getConfigFloat_coherent ext cfg name sec :
  coherent (getConfigFloat ext cfg) (fun val => negb (fIsZero val)) name sec.
Proof.
  unfold coherent, getConfigFloat, optional, cfg_RequireFloat64, cfg_GetFloat64, readMap,
    cfg_Require, cfg_Get. cbn.
  destruct (ctxConfig (cfg_ctx cfg) !! fullKey cfg name) as [v|]; cbn.
  - split; [reflexivity|]. split; [auto|]. eauto.
  - split; [reflexivity|]. split; [discriminate|]. exists fzero. split; [reflexivity|].
    discriminate.
Qed.

(** One scalar case of the loop body, run on its own result. *)
Lemma extractScalar_again {A : Type} (get : configParams -> list string * read A)
    (nz : A -> bool) (mk : A -> GoVal) (zeroish : GoVal -> bool) name sec req :
  coherent get nz name sec ->
  let step fv :=
    extractScalar (get (mkParams name (req && zeroish fv) sec)) sec name fv
      (fun val => if nz val then mk val else fv) in
  forall fv fv' keys c,
    step fv = (fv', keys, c) ->
    (fv' = fv \/ exists v, fv' = mk v)
    /\ match c with
       | Continue => step fv' = (fv', keys, Continue)
       | Return _ => fv' = fv
       end.
Proof.
  intros (Hkeys & Hreq & vo & Hopt & Hnz) step fv fv' keys c. unfold step, extractScalar.
  assert (Hk : forall r, fst (get (mkParams name r sec)) = fst (get (mkParams name false sec))).
  { intros []; [exact Hkeys|reflexivity]. }
  destruct (req && zeroish fv) eqn:Hflag.
  - destruct (snd (get (mkParams name true sec))) as [v|p] eqn:Hr.
    + specialize (Hreq v eq_refl). destruct sec.
      * intros [= <- <- <-]. split; [now left|reflexivity].
      * intros [= <- <- <-]. split.
        { destruct (nz v); eauto. }
        destruct (req && zeroish (if nz v then mk v else fv)).
        -- rewrite Hr. now destruct (nz v).
        -- rewrite Hreq, Hkeys. now destruct (nz v).
    + intros [= <- <- <-]. split; [now left|reflexivity].
  - rewrite Hopt. destruct sec.
    + intros [= <- <- <-]. split; [now left|reflexivity].
    + intros [= <- <- <-]. split.
      { destruct (nz vo); eauto. }
      destruct (nz vo) eqn:Hv.
      * destruct (req && zeroish (mk vo)).
        -- rewrite (Hnz eq_refl), Hkeys. now rewrite Hv.
        -- rewrite Hopt. now rewrite Hv.
      * rewrite Hflag, Hopt. now rewrite Hv.
Qed.

(** The body of the loop, run on a scalar field it has already bound, reads
    the same keys and leaves the field as it is; when it returned instead,
    it had not written the field. *)
Lemma extractField_scalar_again ext cfg ff fv' keys c :
  scalarOrSkipped ff = true ->
  extractField ext cfg ff = (fv', keys, c) ->
  match c with
  | Continue =>
      extractField ext cfg (mkField (fname ff) (ftag ff) fv') = (fv', keys, Continue)
  | Return _ => fv' = fval ff
  end.
Proof.
  unfold scalarOrSkipped, extractField. cbn [ftag fval].
  destruct (configFieldName (ftag ff)) as [[name sec]|].
  2:{ intros _ [= <- <- <-]. reflexivity. }
  destruct (fval ff) as [b|k n|k x|s| | | | | | | |] eqn:Hv; try discriminate; intros _ Hrun.
  - pose proof (extractScalar_again (getConfigBool ext cfg) (fun val => val) VBool
      (fun v => match v with VBool b => b | _ => false end) name sec
      (hasRequired (ftag ff)) (getConfigBool_coherent ext cfg name sec)
      (VBool b) fv' keys c Hrun) as [Hshape Hagain].
    destruct c; [|exact Hagain].
    destruct Hshape as [->|[v ->]]; exact Hagain.
  - destruct (signed k) eqn:Hs.
    + pose proof (extractScalar_again (getConfigInt ext cfg) (fun val => negb (val =? 0))
        (fun val => VInt k (wrapS (bits k) val))
        (fun v => match v with VInt _ n => n =? 0 | _ => false end) name sec
        (hasRequired (ftag ff)) (getConfigInt_coherent ext cfg name sec)
        (VInt k n) fv' keys c Hrun) as [Hshape Hagain].
      destruct c; [|exact Hagain].
      destruct Hshape as [->|[v ->]]; rewrite Hs; exact Hagain.
    + assert (fv' = VInt k n) as ->.
      { revert Hrun. unfold extractUnsigned.
        destruct (hasRequired (ftag ff)); [now intros [= <- _ _]|].
        destruct (snd (getConfigInt ext cfg _)) as [val|p]; [|now intros [= <- _ _]].
        destruct sec; [now intros [= <- _ _]|].
        destruct (negb (val =? 0)); now intros [= <- _ _]. }
      destruct c; [|reflexivity]. rewrite Hs. exact Hrun.
  - pose proof (extractScalar_again (getConfigFloat ext cfg) (fun val => negb (fIsZero val))
      (fun val => VFloat k (match k with Float32 => toFloat32 val | Float64 => val end))
      (fun v => match v with VFloat _ x => fIsZero x | _ => false end) name sec
      (hasRequired (ftag ff)) (getConfigFloat_coherent ext cfg name sec)
      (VFloat k x) fv' keys c Hrun) as [Hshape Hagain].
    destruct c; [|exact Hagain].
    destruct Hshape as [->|[v ->]]; exact Hagain.
  - pose proof (extractScalar_again (getConfigString cfg) (fun val => negb (isEmpty val))
      VString
      (fun v => match v with VString s => isEmpty s | _ => false end) name sec
      (hasRequired (ftag ff)) (getConfigString_coherent cfg name sec)
      (VString s) fv' keys c Hrun) as [Hshape Hagain].
    destruct c; [|exact Hagain].
    destruct Hshape as [->|[v ->]]; exact Hagain.
Qed.

Lemma extractFields_scalar_again ext cfg fields :
  forall fields' keys o,
    forallb scalarOrSkipped fields = true ->
    extractFields ext cfg fields = (fields', keys, o) ->
    extractFields ext cfg fields' = (fields', keys, o).
Proof.
  induction fields as [|ff rest IH]; intros fields' keys o Hall Hrun.
  - injection Hrun as <- <- <-. reflexivity.
  - cbn [forallb] in Hall. apply andb_prop in Hall as [Hff Hrest].
    cbn [extractFields] in Hrun.
    destruct (extractField ext cfg ff) as [[fv1 keys1] c] eqn:Hf.
    pose proof (extractField_scalar_again _ _ _ _ _ _ Hff Hf) as Hagain.
    destruct c as [|o1].
    + destruct (extractFields ext cfg rest) as [[rest' keys'] o'] eqn:Hr.
      injection Hrun as <- <- <-.
      cbn [extractFields fname ftag]. rewrite Hagain.
      now rewrite (IH _ _ _ Hrest eq_refl).
    + injection Hrun as <- <- <-. subst fv1.
      cbn [extractFields fname ftag].
      replace (mkField (fname ff) (ftag ff) (fval ff)) with ff by now destruct ff.
      rewrite Hf. now destruct ff.
Qed.

(** C5: on a target whose tagged fields are all of scalar kind, running
    [ExtractConfig] on the result of [ExtractConfig] changes nothing: the
    second run leaves the target as the first left it, reads the same keys
    and ends the same way. *)
Theorem scalar_rebind_idempotent ext ctx namespace fields obj1 keys1 o1 :
  forallb scalarOrSkipped fields = true ->
  ExtractConfig ext ctx namespace (target fields) = (obj1, keys1, o1) ->
  ExtractConfig ext ctx namespace obj1 = (obj1, keys1, o1).
Proof.
  intros Hall. unfold ExtractConfig, target.
  destruct (extractFields ext (config_New ctx namespace) fields)
    as [[fields' keys] o] eqn:Hrun.
  intros [= <- <- <-].
  now rewrite (extractFields_scalar_again _ _ _ _ _ _ Hall Hrun).
Qed.

(** ** The recursion bound *)

Lemma depth_dictGet (dict : Dict) key val :
  dictGet dict key = Some val -> (depth val < depth (JObj dict))%nat.
Proof.
  cbn [depth]. induction dict as [|[k v] rest IH]; cbn [dictGet foldr snd].
  - discriminate.
  - destruct (decide (k = key)).
    + intros [= ->]. lia.
    + intros H. specialize (IH H). lia.
Qed.

Lemma depth_elem (arr : list Json) val :
  val ∈ arr -> (depth val < depth (JArr arr))%nat.
Proof.
  cbn [depth]. induction 1 as [v rest|v w rest _ IH]; cbn [foldr]; lia.
Qed.

Lemma forFields_ext body1 body2 fields :
  (forall ff, body1 ff = body2 ff) ->
  forFields body1 fields = forFields body2 fields.
Proof.
  intros Hb. induction fields as [|ff rest IH]; [reflexivity|].
  cbn [forFields]. now rewrite Hb, IH.
Qed.

(** The body of the loop depends on the recursive calls only at the values
    of [dict]. *)
Lemma mapField_ext r1 a1 r2 a2 (dict : Dict) ff :
  (forall key child obj, dictGet dict key = Some (JObj child) -> r1 child obj = r2 child obj) ->
  (forall key arr obj, dictGet dict key = Some (JArr arr) -> a1 arr obj = a2 arr obj) ->
  mapField r1 a1 dict ff = mapField r2 a2 dict ff.
Proof.
  intros Hr Ha. unfold mapField.
  destruct (jsonFieldName (ftag ff)) as [name|]; [|reflexivity].
  destruct (fval ff) as [| | | | | |fields|elem|pointee|elem s|elem a|i d];
    try reflexivity;
    destruct (dictGet dict name) as [val|] eqn:Hget; try reflexivity;
    unfold mapStructuralField, mapPointerField;
    destruct val as [| | | |arr|child]; try reflexivity;
    try (rewrite (Hr _ _ _ Hget); reflexivity);
    try (rewrite (Ha _ _ _ Hget); reflexivity).
Qed.

Lemma arrayLoop_ext r1 r2 elem initalLen arr :
  (forall dict obj, JObj dict ∈ arr -> r1 dict obj = r2 dict obj) ->
  forall i s, arrayLoop r1 elem initalLen i arr s = arrayLoop r2 elem initalLen i arr s.
Proof.
  induction arr as [|val rest IH]; intros Hr i s; [reflexivity|].
  cbn [arrayLoop]. destruct val as [| | | | |dict]; try reflexivity.
  destruct (sliceList _ !! _) as [e|]; [|reflexivity].
  rewrite (Hr dict (AVal (Addr e))) by left.
  destruct (r2 dict (AVal (Addr e))) as [obj' o].
  destruct o; try reflexivity.
  apply IH. intros d obj Hin. apply Hr. now right.
Qed.

(** Any recursion bound that reaches the depth of the JSON value gives the
    same result. *)
Lemma fuel_stable n :
  forall m,
    (forall dict obj, (depth (JObj dict) <= n)%nat -> (depth (JObj dict) <= m)%nat ->
       unmarshallJSONMap_fuel n dict obj = unmarshallJSONMap_fuel m dict obj)
    /\ (forall arr obj, (depth (JArr arr) <= n)%nat -> (depth (JArr arr) <= m)%nat ->
       unmarshallJSONArray_fuel n arr obj = unmarshallJSONArray_fuel m arr obj).
Proof.
  induction n as [|n IH]; intros m; split; intros x obj Hn Hm;
    try (cbn [depth] in Hn; lia).
  - destruct m as [|m]; [cbn [depth] in Hm; lia|].
    cbn [unmarshallJSONMap_fuel]. unfold unmarshallJSONMap_body.
    destruct obj as [|[| | | | | | | |[]| | |]|]; try reflexivity.
    erewrite forFields_ext; [reflexivity|].
    intros ff. apply mapField_ext.
    + intros key child o Hget. apply depth_dictGet in Hget.
      apply (IH m); lia.
    + intros key arr o Hget. apply depth_dictGet in Hget.
      apply (IH m); lia.
  - destruct m as [|m]; [cbn [depth] in Hm; lia|].
    cbn [unmarshallJSONArray_fuel]. unfold unmarshallJSONArray_body.
    destruct obj as [|[| | | | | | | |[]| | |]|]; try reflexivity.
    erewrite arrayLoop_ext; [reflexivity|].
    intros dict o Hin. apply depth_elem in Hin.
    apply (IH m); lia.
Qed.

(** The recursion bound of the entry points is never reached. *)
Lemma setFieldValue_no_fuel fv val name :
  snd (setFieldValue fv val name) <> OutOfFuel.
Proof.
  unfold setFieldValue, recovered.
  destruct (jsonKind val) as [vk|].
  - destruct (decide (kindOf fv <> vk)).
    + destruct (decide (kindOf fv = KInt Int /\ vk = KFloat Float64)); [|discriminate].
      destruct val; discriminate.
    + destruct (Convert val fv); [discriminate|].
      destruct (kindOf fv); discriminate.
  - destruct (kindOf fv); discriminate.
Qed.

Lemma wrapped_no_fuel w o : o <> OutOfFuel -> wrapped w o <> Return OutOfFuel.
Proof. destruct o; cbn; congruence. Qed.

Lemma mapField_no_fuel r a (dict : Dict) ff :
  (forall key child obj, dictGet dict key = Some (JObj child) ->
     snd (r child obj) <> OutOfFuel) ->
  (forall key arr obj, dictGet dict key = Some (JArr arr) ->
     snd (a arr obj) <> OutOfFuel) ->
  snd (mapField r a dict ff) <> Return OutOfFuel.
Proof.
  intros Hr Ha. unfold mapField.
  destruct (jsonFieldName (ftag ff)) as [name|]; [|discriminate].
  assert (Hset : forall fv val,
    snd (let '(fv', o) := setFieldValue fv val name in (fv', wrapped (fun e => e) o))
    <> Return OutOfFuel).
  { intros fv val. pose proof (setFieldValue_no_fuel fv val name) as H.
    destruct (setFieldValue fv val name) as [fv' o]. now apply wrapped_no_fuel. }
  assert (Hret : forall fv val,
    snd (let '(p, o) := setFieldValue fv val name in (VPtr p, Return o))
    <> Return OutOfFuel).
  { intros fv val. pose proof (setFieldValue_no_fuel fv val name) as H.
    destruct (setFieldValue fv val name) as [fv' o]. cbn in *. congruence. }
  assert (Hmap : forall child obj (f : Any -> GoVal) key,
    dictGet dict key = Some (JObj child) ->
    snd (let '(obj', o) := r child obj in (f obj', wrapped (ErrJsonMapField name) o))
    <> Return OutOfFuel).
  { intros child obj f key Hget. pose proof (Hr _ _ obj Hget) as H.
    destruct (r child obj) as [obj' o]. now apply wrapped_no_fuel. }
  assert (Harr : forall arr obj (f : Any -> GoVal) key,
    dictGet dict key = Some (JArr arr) ->
    snd (let '(obj', o) := a arr obj in (f obj', wrapped (ErrJsonArrayField name) o))
    <> Return OutOfFuel).
  { intros arr obj f key Hget. pose proof (Ha _ _ obj Hget) as H.
    destruct (a arr obj) as [obj' o]. now apply wrapped_no_fuel. }
  destruct (fval ff) as [| | | | | |fields|elem|pointee|elem s|elem a0|i d];
    try (destruct (dictGet dict name) as [val|] eqn:Hget; [|discriminate]);
    try apply Hset.
  - discriminate.
  - unfold mapStructuralField. destruct val; try discriminate.
    eapply (Hmap _ _ (fun obj' => Elem obj' _)); eassumption.
  - unfold mapStructuralField, mapPointerField. destruct val; try apply Hret.
    + eapply (Harr _ _ (fun obj' => VPtr (Elem obj' _))); eassumption.
    + eapply (Hmap _ _ (fun obj' => VPtr (Elem obj' _))); eassumption.
  - unfold mapStructuralField, mapPointerField. destruct val; try apply Hret.
    + eapply (Harr _ _ (fun obj' => VPtr (Elem obj' _))); eassumption.
    + eapply (Hmap _ _ (fun obj' => VPtr (Elem obj' _))); eassumption.
  - unfold mapStructuralField. destruct val; try discriminate.
    eapply (Harr _ _ (fun obj' => Elem obj' _)); eassumption.
  - discriminate.
  - unfold mapInterfaceField.
    destruct i; try discriminate;
      destruct (dictGet dict name) as [val|]; try discriminate;
      match goal with |- context [if ?b then _ else _] => destruct b end;
      try discriminate; destruct val; discriminate.
Qed.

Lemma forFields_no_fuel body fields :
  (forall ff, snd (body ff) <> Return OutOfFuel) ->
  snd (forFields body fields) <> OutOfFuel.
Proof.
  intros Hb. induction fields as [|ff rest IH]; [discriminate|].
  cbn [forFields]. specialize (Hb ff). destruct (body ff) as [fv' c].
  destruct c as [|o].
  - now destruct (forFields body rest).
  - cbn in *. congruence.
Qed.

Lemma arrayLoop_no_fuel r elem initalLen arr :
  (forall dict obj, JObj dict ∈ arr -> snd (r dict obj) <> OutOfFuel) ->
  forall i s, snd (arrayLoop r elem initalLen i arr s) <> OutOfFuel.
Proof.
  induction arr as [|val rest IH]; intros Hr i s; [discriminate|].
  cbn [arrayLoop]. destruct val as [| | | | |dict]; try discriminate.
  destruct (sliceList _ !! _) as [e|]; [|discriminate].
  pose proof (Hr dict (AVal (Addr e)) ltac:(left)) as H.
  destruct (r dict (AVal (Addr e))) as [obj' o].
  destruct o; try discriminate.
  - apply IH. intros d obj Hin. apply Hr. now right.
  - now cbn in H.
Qed.

Lemma fuel_enough n :
  (forall dict obj, (depth (JObj dict) <= n)%nat ->
     snd (unmarshallJSONMap_fuel n dict obj) <> OutOfFuel)
  /\ (forall arr obj, (depth (JArr arr) <= n)%nat ->
     snd (unmarshallJSONArray_fuel n arr obj) <> OutOfFuel).
Proof.
  induction n as [|n [IHm IHa]]; split; intros x obj Hn;
    try (cbn [depth] in Hn; lia).
  - cbn [unmarshallJSONMap_fuel]. unfold unmarshallJSONMap_body.
    destruct obj as [|[| | | | | | | |[]| | |]|]; try discriminate.
    match goal with |- context [forFields ?b ?f] =>
      pose proof (forFields_no_fuel b f) as H; destruct (forFields b f) end.
    apply H. intros ff. apply mapField_no_fuel.
    + intros key child obj0 Hget. apply depth_dictGet in Hget. apply IHm. lia.
    + intros key arr obj0 Hget. apply depth_dictGet in Hget. apply IHa. lia.
  - cbn [unmarshallJSONArray_fuel]. unfold unmarshallJSONArray_body.
    destruct obj as [|[| | | | | | | |[]| | |]|]; try discriminate.
    match goal with |- context [arrayLoop ?r ?e ?l ?i ?a ?s] =>
      pose proof (arrayLoop_no_fuel r e l a) as H;
      specialize (fun Hr => H Hr i s); destruct (arrayLoop r e l i a s) end.
    apply H. intros dict obj0 Hin. apply depth_elem in Hin. apply IHm. lia.
Qed.

Lemma unmarshallJSONMap_total dict obj :
  snd (unmarshallJSONMap dict obj) <> OutOfFuel.
Proof. now apply fuel_enough. Qed.

Lemma unmarshallJSONArray_total arr obj :
  snd (unmarshallJSONArray arr obj) <> OutOfFuel.
Proof. now apply fuel_enough. Qed.

Lemma UnmarshalJSONConfig_total ext data obj :
  snd (UnmarshalJSONConfig ext data obj) <> OutOfFuel.
Proof.
  unfold UnmarshalJSONConfig. destruct (isEmpty data); [discriminate|].
  destruct (json_Unmarshal ext data) as [[]|]; try discriminate.
  - apply unmarshallJSONArray_total.
  - apply unmarshallJSONMap_total.
Qed.

Lemma extractScalar_no_fuel {A : Type} (r : list string * read A) sec name fv assign :
  snd (extractScalar r sec name fv assign) <> Return OutOfFuel.
Proof. unfold extractScalar. destruct (snd r); [destruct sec|]; discriminate. Qed.

Lemma extractInput_no_fuel {A : Type} cfg params getSecret
    (getConfig : Config -> configParams -> list string * read A)
    fv output literal nonZero okOrNil :
  snd (extractInput cfg params getSecret getConfig fv output literal nonZero okOrNil)
  <> Return OutOfFuel.
Proof.
  unfold extractInput. destruct (isSecret params).
  - destruct (snd (getSecret cfg params)); discriminate.
  - destruct (snd (getConfig cfg params)); discriminate.
Qed.

Lemma extractField_no_fuel ext cfg ff :
  snd (extractField ext cfg ff) <> Return OutOfFuel.
Proof.
  unfold extractField.
  destruct (configFieldName (ftag ff)) as [[name sec]|]; [|discriminate].
  assert (Hs : forall fv,
    snd (extractStructural ext cfg name (hasRequired (ftag ff)) fv) <> Return OutOfFuel).
  { intros fv. unfold extractStructural.
    destruct (match fv with
              | VPtr _ => (fv, true)
              | VNilPtr elem => (VPtr (zero elem), false)
              | _ => if negb (IsZero fv) then (Addr fv, true)
                     else (VPtr (zero (typeOf fv)), false)
              end) as [val inPlace].
    destruct (loadJsonConfig cfg name (hasRequired (ftag ff)) (Interface val))
      as [keys [data|err]].
    - pose proof (UnmarshalJSONConfig_total ext data (Interface val)) as H.
      destruct (UnmarshalJSONConfig ext data (Interface val)) as [obj' o].
      destruct o; cbn in *; congruence.
    - destruct err; discriminate. }
  destruct (fval ff) as [b|k n|k x|s|k|m|fields|elem|pointee|elem s|elem a|i d];
    try apply Hs; try apply extractScalar_no_fuel; try discriminate.
  - destruct (signed k); [apply extractScalar_no_fuel|].
    unfold extractUnsigned. destruct (hasRequired (ftag ff)); [discriminate|].
    destruct (snd (getConfigInt ext cfg _)) as [val|p]; [|discriminate].
    destruct sec; [discriminate|]. destruct (negb (val =? 0)); discriminate.
  - destruct (loadJsonConfig cfg name (hasRequired (ftag ff)) (Interface (VMap m)))
      as [keys [bytes|err]].
    + destruct (json_UnmarshalMap ext bytes m); discriminate.
    + destruct err; discriminate.
  - destruct i; try discriminate.
    + destruct d as [[]|]; apply extractInput_no_fuel.
    + destruct d as [[]|]; apply extractInput_no_fuel.
    + destruct d as [[]|]; apply extractInput_no_fuel.
    + destruct d as [[]|]; apply extractInput_no_fuel.
Qed.

(** [ExtractConfig] never reaches the recursion bound of the model. *)
Lemma ExtractConfig_total ext ctx namespace obj :
  snd (ExtractConfig ext ctx namespace obj) <> OutOfFuel.
Proof.
  unfold ExtractConfig.
  destruct obj as [|[| | | | | | | |[]| | |]|]; try discriminate.
  generalize (config_New ctx namespace). intros cfg.
  assert (H : forall fs, snd (extractFields ext cfg fs) <> OutOfFuel).
  { induction fs as [|ff rest IH]; [discriminate|].
    cbn [extractFields]. pose proof (extractField_no_fuel ext cfg ff) as Hf.
    destruct (extractField ext cfg ff) as [[fv' keys] c]. destruct c as [|o].
    - now destruct (extractFields ext cfg rest) as [[rest' keys'] o'].
    - cbn in *. congruence. }
  specialize (H fields). now destruct (extractFields ext cfg fields) as [[fields' keys] o].
Qed.

(** ** The append law of the array binder *)

(** A call of the map binder on a pointer returns that pointer. *)
Lemma unmarshallJSONMap_fuel_pointer n dict v obj' o :
  unmarshallJSONMap_fuel n dict (AVal (VPtr v)) = (obj', o) ->
  exists v', obj' = AVal (VPtr v').
Proof.
  destruct n as [|n]; cbn [unmarshallJSONMap_fuel]; [intros [= <- _]; eauto|].
  unfold unmarshallJSONMap_body.
  destruct v; try (intros [= <- _]; eauto).
  destruct (forFields _ _) as [fields' o']. intros [= <- _]. eauto.
Qed.

(** When the loop returns a nil error, every element of [arr] is a JSON
    object and was bound into a fresh zero element appended to the slice. *)
Lemma arrayLoop_appends r elem initalLen arr :
  forall i s s',
    length (sliceList s) = (initalLen + i)%nat ->
    arrayLoop r elem initalLen i arr s = (s', Nil) ->
    exists t,
      sliceList s' = sliceList s ++ t
      /\ Forall2 (fun val e => exists dict obj',
                    val = JObj dict
                    /\ r dict (AVal (Addr (zero elem))) = (obj', Nil)
                    /\ e = Elem obj' (zero elem)) arr t.
Proof.
  induction arr as [|val rest IH]; intros i s s' Hlen Hrun.
  - injection Hrun as <-. exists []. split; [now rewrite app_nil_r|constructor].
  - cbn [arrayLoop] in Hrun. destruct val as [| | | | |dict]; try discriminate.
    rewrite Hlen, Nat.leb_refl in Hrun.
    change (sliceList (Some (sliceList s ++ [zero elem])))
      with (sliceList s ++ [zero elem]) in Hrun.
    rewrite <- Hlen in Hrun.
    rewrite lookup_app_r, Nat.sub_diag in Hrun by lia. cbn [lookup list_lookup] in Hrun.
    destruct (r dict (AVal (Addr (zero elem)))) as [obj' o] eqn:Hr.
    replace (length (sliceList s)) with (length (sliceList s) + 0)%nat in Hrun by lia.
    rewrite insert_app_r in Hrun. cbn [insert list_insert] in Hrun.
    destruct o; try discriminate.
    apply IH in Hrun as (t & Ht & Hall).
    + exists (Elem obj' (zero elem) :: t). split.
      * rewrite Ht.
        change (sliceList (Some ?l)) with l. now rewrite <- app_assoc.
      * constructor; [|exact Hall]. exists dict, obj'. auto.
    + change (sliceList (Some ?l)) with l. rewrite length_app. cbn [length]. lia.
Qed.

(** C1: binding an array [A] into an empty or nil slice and then an array
    [B] into the result, both calls returning a nil error, gives a slice of
    length [length A + length B] whose first [length A] elements are those
    of the first result; the element at index [length A + i] is the zero
    element into which the [i]-th element of [B] was bound. *)
Theorem append_law elem A B s0 s1 s2 :
  sliceList s0 = [] ->
  unmarshallJSONArray A (AVal (VPtr (VSlice elem s0)))
  = (AVal (VPtr (VSlice elem s1)), Nil) ->
  unmarshallJSONArray B (AVal (VPtr (VSlice elem s1)))
  = (AVal (VPtr (VSlice elem s2)), Nil) ->
  length (sliceList s1) = length A
  /\ length (sliceList s2) = (length A + length B)%nat
  /\ take (length A) (sliceList s2) = sliceList s1
  /\ forall i val, B !! i = Some val ->
       exists dict e,
         val = JObj dict
         /\ sliceList s2 !! (length A + i)%nat = Some e
         /\ unmarshallJSONMap dict (AVal (Addr (zero elem))) = (AVal (Addr e), Nil).
Proof.
  intros Hempty HA HB.
  unfold unmarshallJSONArray in HA, HB.
  cbn [depth unmarshallJSONArray_fuel] in HA, HB.
  unfold unmarshallJSONArray_body in HA, HB.
  destruct (arrayLoop _ elem _ 0 A s0) as [sA oA] eqn:HloopA.
  destruct (arrayLoop _ elem _ 0 B s1) as [sB oB] eqn:HloopB.
  injection HA as -> ->. injection HB as -> ->.
  apply arrayLoop_appends in HloopA as (tA & HtA & HallA); [|lia].
  apply arrayLoop_appends in HloopB as (tB & HtB & HallB); [|lia].
  rewrite Hempty in HtA. cbn [app] in HtA.
  pose proof (Forall2_length _ _ _ HallA) as HlenA.
  pose proof (Forall2_length _ _ _ HallB) as HlenB.
  assert (Hs1 : length (sliceList s1) = length A) by (rewrite HtA; lia).
  split; [exact Hs1|]. split; [rewrite HtB, length_app; lia|].
  split; [rewrite HtB; now apply take_app_length'|].
  intros i val Hi.
  destruct (Forall2_lookup_l _ _ _ _ _ HallB Hi) as (e & He & dict & obj' & -> & Hr & ->).
  exists dict, (Elem obj' (zero elem)). split; [reflexivity|]. split.
  - rewrite HtB, <- Hs1, lookup_app_r by lia.
    now replace (length (sliceList s1) + i - length (sliceList s1))%nat with i by lia.
  - destruct (unmarshallJSONMap_fuel_pointer _ _ _ _ _ Hr) as [v' ->].
    cbn [Elem]. unfold unmarshallJSONMap, Addr.
    rewrite <- Hr. symmetry.
    apply list_elem_of_lookup_2 in Hi. apply depth_elem in Hi.
    cbn [depth] in Hi.
    apply fuel_stable; cbn [depth]; lia.
Qed.

(** ** MarshalJSONConfig *)







(** * Further properties of the binder *)

(** ** The keys [ExtractConfig] reads *)

Lemma getConfigString_keys cfg params :
  fst (getConfigString cfg params) = [fullKey cfg (fieldName params)].
Proof. unfold getConfigString. now destruct (isRequired params). Qed.

Lemma getConfigBool_keys ext cfg params :
  fst (getConfigBool ext cfg params) = [fullKey cfg (fieldName params)].
Proof. unfold getConfigBool. now destruct (isRequired params). Qed.

Lemma getConfigInt_keys ext cfg params :
  fst (getConfigInt ext cfg params) = [fullKey cfg (fieldName params)].
Proof. unfold getConfigInt. now destruct (isRequired params). Qed.

Lemma getConfigFloat_keys ext cfg params :
  fst (getConfigFloat ext cfg params) = [fullKey cfg (fieldName params)].
Proof. unfold getConfigFloat. now destruct (isRequired params). Qed.

Lemma loadJsonConfig_keys cfg name req curr :
  fst (loadJsonConfig cfg name req curr) = [fullKey cfg name].
Proof.
  unfold loadJsonConfig, cfg_Get.
  destruct (req && isNilAny curr && isEmpty _); [reflexivity|].
  now destruct (isEmpty _).
Qed.

Lemma extractScalar_keys {A : Type} (r : list string * read A) sec name fv assign :
  snd (fst (extractScalar r sec name fv assign)) = fst r.
Proof. unfold extractScalar. destruct (snd r); [destruct sec|]; reflexivity. Qed.

Lemma extractInput_keys {A : Type} cfg params getSecret
    (getConfig : Config -> configParams -> list string * read A)
    fv output literal nonZero okOrNil key :
  fst (getSecret cfg params) = [key] ->
  fst (getConfig cfg params) = [key] ->
  snd (fst (extractInput cfg params getSecret getConfig fv output literal nonZero okOrNil))
  = [key].
Proof.
  intros Hs Hc. unfold extractInput. destruct (isSecret params).
  - rewrite <- Hs. now destruct (snd (getSecret cfg params)).
  - rewrite <- Hc. now destruct (snd (getConfig cfg params)).
Qed.

Lemma extractStructural_keys ext cfg name req fv :
  snd (fst (extractStructural ext cfg name req fv)) = [fullKey cfg name].
Proof.
  unfold extractStructural.
  destruct (match fv with
            | VPtr _ => (fv, true)
            | VNilPtr elem => (VPtr (zero elem), false)
            | _ => if negb (IsZero fv) then (Addr fv, true)
                   else (VPtr (zero (typeOf fv)), false)
            end) as [val inPlace].
  pose proof (loadJsonConfig_keys cfg name req (Interface val)) as Hk.
  destruct (loadJsonConfig cfg name req (Interface val)) as [keys [data|err]];
    cbn [fst] in Hk; subst keys.
  - destruct (UnmarshalJSONConfig ext data (Interface val)) as [obj' o].
    now destruct o.
  - now destruct err.
Qed.

(** The body of the loop reads no key, or the one key of the field under
    the namespace. *)
Lemma extractField_keys ext cfg ff :
  match configFieldName (ftag ff) with
  | None => snd (fst (extractField ext cfg ff)) = []
  | Some (name, _) =>
      snd (fst (extractField ext cfg ff)) = []
      \/ snd (fst (extractField ext cfg ff)) = [fullKey cfg name]
  end.
Proof.
  unfold extractField.
  destruct (configFieldName (ftag ff)) as [[name sec]|]; [|reflexivity].
  destruct (fval ff) as [b|k n|k x|s|k|m|fields|elem|pointee|elem s|elem a|i d];
    try (right; apply extractStructural_keys);
    try (right; rewrite extractScalar_keys;
         first [apply getConfigBool_keys | apply getConfigFloat_keys
               | apply getConfigString_keys]);
    try (now left).
  - destruct (signed k).
    + right. rewrite extractScalar_keys. apply getConfigInt_keys.
    + unfold extractUnsigned. destruct (hasRequired (ftag ff)); [now left|].
      right. pose proof (getConfigInt_keys ext cfg (mkParams name false sec)) as Hk.
      cbn [fieldName] in Hk. rewrite <- Hk.
      destruct (snd (getConfigInt ext cfg _)) as [val|p]; [|reflexivity].
      destruct sec; [reflexivity|]. now destruct (negb (val =? 0)).
  - right.
    pose proof (loadJsonConfig_keys cfg name (hasRequired (ftag ff)) (Interface (VMap m)))
      as Hk.
    destruct (loadJsonConfig cfg name (hasRequired (ftag ff)) (Interface (VMap m)))
      as [keys [bytes|err]]; cbn [fst] in Hk; subst keys.
    + now destruct (json_UnmarshalMap ext bytes m).
    + now destruct err.
  - destruct i; try (now left); right.
    + destruct d as [[]|]; apply extractInput_keys;
        first [apply getConfigString_keys
              | unfold getSecretString, secretOf, readMap; apply getConfigString_keys].
    + destruct d as [[]|]; apply extractInput_keys;
        first [apply getConfigBool_keys
              | unfold getSecretBool, secretOf, readMap; apply getConfigBool_keys].
    + destruct d as [[]|]; apply extractInput_keys;
        first [apply getConfigInt_keys
              | unfold getSecretInt, secretOf, readMap; apply getConfigInt_keys].
    + destruct d as [[]|]; apply extractInput_keys;
        first [apply getConfigFloat_keys
              | unfold getSecretFloat, secretOf, readMap; apply getConfigFloat_keys].
Qed.

Lemma extractFields_keys ext cfg fields :
  forall fields' keys o,
    extractFields ext cfg fields = (fields', keys, o) ->
    (length keys <= length fields)%nat
    /\ Forall (fun key => exists ff name sec,
                 ff ∈ fields
                 /\ configFieldName (ftag ff) = Some (name, sec)
                 /\ key = fullKey cfg name) keys.
Proof.
  induction fields as [|ff rest IH]; intros fields' keys o Hrun.
  - injection Hrun as <- <- <-. split; [reflexivity|constructor].
  - cbn [extractFields] in Hrun.
    pose proof (extractField_keys ext cfg ff) as Hff.
    destruct (extractField ext cfg ff) as [[fv1 keys1] c]. cbn [fst snd] in Hff.
    assert (H1 : (length keys1 <= 1)%nat
                 /\ Forall (fun key => exists ff0 name sec,
                              ff0 ∈ ff :: rest
                              /\ configFieldName (ftag ff0) = Some (name, sec)
                              /\ key = fullKey cfg name) keys1).
    { destruct (configFieldName (ftag ff)) as [[name sec]|] eqn:Hn.
      - destruct Hff as [->| ->]; (split; [cbn; lia|]); constructor; [|constructor].
        exists ff, name, sec. split; [left|]. now split.
      - subst keys1. split; [cbn; lia|constructor]. }
    destruct H1 as [Hlen1 Hall1].
    destruct c as [|o1].
    + destruct (extractFields ext cfg rest) as [[rest' keys'] o'] eqn:Hr.
      injection Hrun as <- <- <-.
      destruct (IH _ _ _ eq_refl) as [Hlen Hall]. split.
      * rewrite length_app. cbn [length]. lia.
      * apply Forall_app. split; [exact Hall1|].
        eapply Forall_impl; [exact Hall|].
        intros key (ff0 & name & sec & Hin & Hn & ->).
        exists ff0, name, sec. split; [now right|]. now split.
    + injection Hrun as <- <- <-. split; [cbn [length]; lia|exact Hall1].
Qed.

(** X1: every key [ExtractConfig] reads is the key of a tagged field of the
    target under the namespace of the call (the project's name when the
    namespace is empty), and it reads at most one key per field. *)
Theorem ExtractConfig_reads_namespaced_keys ext ctx namespace fields :
  let keys := snd (fst (ExtractConfig ext ctx namespace (target fields))) in
  (length keys <= length fields)%nat
  /\ Forall (fun key => exists ff name sec,
               ff ∈ fields
               /\ configFieldName (ftag ff) = Some (name, sec)
               /\ key = (if decide (namespace = "") then Project ctx else namespace)
                        +:+ ":" +:+ name) keys.
Proof.
  unfold ExtractConfig, target.
  destruct (extractFields ext (config_New ctx namespace) fields)
    as [[fields' keys0] o0] eqn:Hrun.
  exact (extractFields_keys _ _ _ _ _ _ Hrun).
Qed.

(** ** The shape of the target *)

Lemma kindOf_zero_typeOf v : kindOf (zero (typeOf v)) = kindOf v.
Proof. now destruct v. Qed.

Lemma unmarshallJSONMap_pointer dict v :
  exists v', fst (unmarshallJSONMap dict (AVal (VPtr v))) = AVal (VPtr v')
             /\ kindOf v' = kindOf v.
Proof.
  unfold unmarshallJSONMap. cbn [depth unmarshallJSONMap_fuel].
  unfold unmarshallJSONMap_body.
  destruct v; try (eexists; split; reflexivity).
  destruct (forFields _ _) as [fields' o]. eexists; split; reflexivity.
Qed.

Lemma unmarshallJSONArray_pointer arr v :
  exists v', fst (unmarshallJSONArray arr (AVal (VPtr v))) = AVal (VPtr v')
             /\ kindOf v' = kindOf v.
Proof.
  unfold unmarshallJSONArray. cbn [depth unmarshallJSONArray_fuel].
  unfold unmarshallJSONArray_body.
  destruct v; try (eexists; split; reflexivity).
  destruct (arrayLoop _ _ _ _ _ _) as [s' o]. eexists; split; reflexivity.
Qed.

Lemma UnmarshalJSONConfig_pointer ext data v :
  exists v', fst (UnmarshalJSONConfig ext data (AVal (VPtr v))) = AVal (VPtr v')
             /\ kindOf v' = kindOf v.
Proof.
  unfold UnmarshalJSONConfig.
  destruct (isEmpty data); [eexists; split; reflexivity|].
  destruct (json_Unmarshal ext data) as [[]|]; try (eexists; split; reflexivity).
  - apply unmarshallJSONArray_pointer.
  - apply unmarshallJSONMap_pointer.
Qed.

Lemma extractStructural_kind ext cfg name req fv :
  kindOf (fst (fst (extractStructural ext cfg name req fv))) = kindOf fv.
Proof.
  unfold extractStructural.
  assert (Hval : exists p inPlace,
    match fv with
    | VPtr _ => (fv, true)
    | VNilPtr elem => (VPtr (zero elem), false)
    | _ => if negb (IsZero fv) then (Addr fv, true)
           else (VPtr (zero (typeOf fv)), false)
    end = (VPtr p, inPlace)
    /\ match fv with
       | VPtr _ | VNilPtr _ => True
       | _ => kindOf p = kindOf fv
       end).
  { destruct fv; try (destruct (negb (IsZero _)));
      eexists _, _; (split; [reflexivity|]);
      first [exact I | reflexivity | apply kindOf_zero_typeOf]. }
  destruct Hval as (p & inPlace & -> & Hkind). cbn [Interface].
  destruct (loadJsonConfig cfg name req (AVal (VPtr p))) as [keys [data|err]].
  - destruct (UnmarshalJSONConfig_pointer ext data p) as (v' & Hobj & Hk).
    destruct (UnmarshalJSONConfig ext data (AVal (VPtr p))) as [obj' o].
    cbn [fst] in Hobj. subst obj'. cbn [Elem].
    assert (Hw : kindOf (match fv with
                         | VPtr _ | VNilPtr _ => VPtr v'
                         | _ => v'
                         end) = kindOf fv).
    { destruct fv; try reflexivity; congruence. }
    destruct o; try exact Hw; now destruct inPlace.
  - now destruct err.
Qed.

(** The body of the loop leaves the kind of the field as it is. *)
Lemma extractField_kind ext cfg ff :
  kindOf (fst (fst (extractField ext cfg ff))) = kindOf (fval ff).
Proof.
  unfold extractField.
  destruct (configFieldName (ftag ff)) as [[name sec]|]; [|reflexivity].
  destruct (fval ff) as [b|k n|k x|s|k|m|fields|elem|pointee|elem s|elem a|i d];
    try apply extractStructural_kind; try reflexivity.
  - unfold extractScalar. destruct (snd _) as [val|]; [|reflexivity].
    destruct sec; [reflexivity|]. now destruct val.
  - destruct (signed k).
    + unfold extractScalar. destruct (snd _) as [val|]; [|reflexivity].
      destruct sec; [reflexivity|]. now destruct (negb (val =? 0)).
    + unfold extractUnsigned. destruct (hasRequired (ftag ff)); [reflexivity|].
      destruct (snd _) as [val|]; [|reflexivity].
      destruct sec; [reflexivity|]. now destruct (negb (val =? 0)).
  - unfold extractScalar. destruct (snd _) as [val|]; [|reflexivity].
    destruct sec; [reflexivity|]. now destruct (negb (fIsZero val)).
  - unfold extractScalar. destruct (snd _) as [val|]; [|reflexivity].
    destruct sec; [reflexivity|]. now destruct (negb (isEmpty val)).
  - destruct (loadJsonConfig _ _ _ _) as [keys [bytes|err]].
    + now destruct (json_UnmarshalMap ext bytes m).
    + now destruct err.
  - destruct i; try reflexivity;
      destruct d as [[]|]; unfold extractInput; cbn [isSecret];
      destruct sec; destruct (snd _) as [val|]; try reflexivity;
      match goal with |- context [if ?b then _ else _] => now destruct b end.
Qed.

Lemma extractFields_length ext cfg fields :
  length (fst (fst (extractFields ext cfg fields))) = length fields.
Proof.
  induction fields as [|ff rest IH]; [reflexivity|].
  cbn [extractFields]. destruct (extractField ext cfg ff) as [[fv1 keys1] c].
  destruct c as [|o1]; [|reflexivity].
  destruct (extractFields ext cfg rest) as [[rest' keys'] o'].
  cbn [fst length] in *. now rewrite IH.
Qed.

(** X2: however [ExtractConfig] ends, the target is still a pointer to a
    struct with the same fields: their names, their tags and the kinds of
    their values are as before, and a field without a config, json or
    secret tag holds the value it held. *)
Theorem ExtractConfig_keeps_shape ext ctx namespace fields :
  exists fields',
    fst (fst (ExtractConfig ext ctx namespace (target fields))) = target fields'
    /\ fname <$> fields' = fname <$> fields
    /\ ftag <$> fields' = ftag <$> fields
    /\ (fun ff => kindOf (fval ff)) <$> fields' = (fun ff => kindOf (fval ff)) <$> fields
    /\ forall k ff,
         fields !! k = Some ff -> configFieldName (ftag ff) = None ->
         fields' !! k = Some ff.
Proof.
  unfold ExtractConfig, target.
  pose proof (extractFields_length ext (config_New ctx namespace) fields) as Hlen.
  destruct (extractFields ext (config_New ctx namespace) fields)
    as [[fields' keys] o] eqn:Hrun.
  cbn [fst] in *. exists fields'. split; [reflexivity|].
  assert (Hpt : forall k ff, fields !! k = Some ff ->
            exists fv', fields' !! k = Some (mkField (fname ff) (ftag ff) fv')
                        /\ kindOf fv' = kindOf (fval ff)
                        /\ (configFieldName (ftag ff) = None -> fv' = fval ff)).
  { intros k ff Hk.
    destruct (extractFields_lookup _ _ _ _ _ _ _ _ Hrun Hk) as (fv' & Hl & Hfv).
    exists fv'. split; [exact Hl|].
    destruct Hfv as [->|(keys' & c & Hf)]; [now split|].
    pose proof (extractField_kind ext (config_New ctx namespace) ff) as Hkind.
    rewrite Hf in Hkind. split; [exact Hkind|].
    intros Hn. unfold extractField in Hf. rewrite Hn in Hf. now injection Hf as <-. }
  assert (Hmap : forall {B : Type} (f : Field GoVal -> B),
            (forall ff fv', kindOf fv' = kindOf (fval ff) ->
                            f (mkField (fname ff) (ftag ff) fv') = f ff) ->
            f <$> fields' = f <$> fields).
  { intros B f Hf. apply list_eq. intros k. rewrite !list_lookup_fmap.
    destruct (fields !! k) as [ff|] eqn:Hk.
    - destruct (Hpt _ _ Hk) as (fv' & -> & Hkind & _). cbn. f_equal. now apply Hf.
    - apply lookup_ge_None in Hk. rewrite <- Hlen in Hk.
      apply lookup_ge_None in Hk. now rewrite Hk. }
  split; [now apply Hmap|]. split; [now apply Hmap|]. split; [now apply Hmap|].
  intros k ff Hk Hn. destruct (Hpt _ _ Hk) as (fv' & -> & _ & Heq).
  rewrite (Heq Hn). now destruct ff.
Qed.

(** ** Required keys *)

Lemma cfg_Require_missing cfg key :
  ctxConfig (cfg_ctx cfg) !! fullKey cfg key = None ->
  cfg_Require cfg key = ([fullKey cfg key], Missing (MissingConfig (fullKey cfg key))).
Proof. intros H. unfold cfg_Require. now rewrite H. Qed.

(** A field for which the code makes the required lookup, with no entry for
    its key: the lookup panics on the missing key, after reading that key
    only, and the field is as it was. *)
Lemma extractField_required_missing ext cfg ff name sec :
  configFieldName (ftag ff) = Some (name, sec) ->
  requiresKey ff = true ->
  ctxConfig (cfg_ctx cfg) !! fullKey cfg name = None ->
  extractField ext cfg ff
  = (fval ff, [fullKey cfg name], Return (Panic (MissingConfig (fullKey cfg name)))).
Proof.
  intros Hn Hreq Hnone. unfold extractField. rewrite Hn.
  unfold requiresKey in Hreq.
  destruct (fval ff) as [b|k n|k x|s|k|m|fields|elem|pointee|elem s|elem a|i d];
    try discriminate Hreq.
  - rewrite Hreq. unfold getConfigBool, cfg_RequireBool, readMap. cbn [isRequired fieldName].
    now rewrite (cfg_Require_missing _ _ Hnone).
  - apply andb_prop in Hreq as [Hs Hreq]. rewrite Hs, Hreq.
    unfold getConfigInt, cfg_RequireInt, readMap. cbn [isRequired fieldName].
    now rewrite (cfg_Require_missing _ _ Hnone).
  - rewrite Hreq. unfold getConfigFloat, cfg_RequireFloat64, readMap.
    cbn [isRequired fieldName]. now rewrite (cfg_Require_missing _ _ Hnone).
  - rewrite Hreq. unfold getConfigString. cbn [isRequired fieldName].
    now rewrite (cfg_Require_missing _ _ Hnone).
  - apply andb_prop in Hreq as [Hr Hz]. rewrite Hr.
    destruct i; try discriminate Hz;
      destruct d as [[]|]; try discriminate Hz; cbn in Hz |- *; rewrite ?Hz;
      unfold extractInput, getSecretString, getSecretBool, getSecretInt, getSecretFloat,
        secretOf, getConfigString, getConfigBool, getConfigInt, getConfigFloat,
        cfg_RequireBool, cfg_RequireInt, cfg_RequireFloat64, readMap;
      cbn [isRequired fieldName isSecret andb orb];
      rewrite (cfg_Require_missing _ _ Hnone); now destruct sec.
Qed.

Lemma extractScalar_no_return_nil {A : Type} (r : list string * read A) sec name fv
    assign :
  snd (extractScalar r sec name fv assign) <> Return Nil.
Proof. unfold extractScalar. destruct (snd r); [destruct sec|]; discriminate. Qed.

Lemma extractInput_no_return_nil {A : Type} cfg params getSecret
    (getConfig : Config -> configParams -> list string * read A)
    fv output literal nonZero okOrNil :
  snd (extractInput cfg params getSecret getConfig fv output literal nonZero okOrNil)
  <> Return Nil.
Proof.
  unfold extractInput. destruct (isSecret params).
  - destruct (snd (getSecret cfg params)); discriminate.
  - destruct (snd (getConfig cfg params)); discriminate.
Qed.

Lemma extractField_no_return_nil ext cfg ff :
  snd (extractField ext cfg ff) <> Return Nil.
Proof.
  unfold extractField.
  destruct (configFieldName (ftag ff)) as [[name sec]|]; [|discriminate].
  assert (Hs : forall fv,
    snd (extractStructural ext cfg name (hasRequired (ftag ff)) fv) <> Return Nil).
  { intros fv. unfold extractStructural.
    destruct (match fv with
              | VPtr _ => (fv, true)
              | VNilPtr elem => (VPtr (zero elem), false)
              | _ => if negb (IsZero fv) then (Addr fv, true)
                     else (VPtr (zero (typeOf fv)), false)
              end) as [val inPlace].
    destruct (loadJsonConfig cfg name (hasRequired (ftag ff)) (Interface val))
      as [keys [data|err]].
    - destruct (UnmarshalJSONConfig ext data (Interface val)) as [obj' o].
      destruct o; discriminate.
    - destruct err; discriminate. }
  destruct (fval ff) as [b|k n|k x|s|k|m|fields|elem|pointee|elem s|elem a|i d];
    try apply Hs; try apply extractScalar_no_return_nil; try discriminate.
  - destruct (signed k); [apply extractScalar_no_return_nil|].
    unfold extractUnsigned. destruct (hasRequired (ftag ff)); [discriminate|].
    destruct (snd (getConfigInt ext cfg _)) as [val|p]; [|discriminate].
    destruct sec; [discriminate|]. destruct (negb (val =? 0)); discriminate.
  - destruct (loadJsonConfig cfg name (hasRequired (ftag ff)) (Interface (VMap m)))
      as [keys [bytes|err]].
    + destruct (json_UnmarshalMap ext bytes m); discriminate.
    + destruct err; discriminate.
  - destruct i; try discriminate;
      destruct d as [[]|]; apply extractInput_no_return_nil.
Qed.

(** A loop that returned a nil error ran its body on every field. *)
Lemma extractFields_Nil ext cfg fields :
  forall fields' keys,
    extractFields ext cfg fields = (fields', keys, Nil) ->
    forall k ff, fields !! k = Some ff ->
      exists fv' keys', extractField ext cfg ff = (fv', keys', Continue)
                        /\ fields' !! k = Some (mkField (fname ff) (ftag ff) fv').
Proof.
  induction fields as [|f rest IH]; intros fields' keys Hrun k ff Hk.
  - destruct k; discriminate Hk.
  - cbn [extractFields] in Hrun.
    pose proof (extractField_no_return_nil ext cfg f) as Hnil.
    destruct (extractField ext cfg f) as [[fv1 keys1] c] eqn:Hf.
    destruct c as [|o1].
    + destruct (extractFields ext cfg rest) as [[rest' keys'] o'] eqn:Hr.
      injection Hrun as <- <- ->.
      destruct k as [|k].
      * injection Hk as <-. eauto.
      * exact (IH _ _ eq_refl _ _ Hk).
    + injection Hrun as _ _ ->. now cbn in Hnil.
Qed.

(** X3: when [ExtractConfig] returns a nil error, the Configuration Source
    has an entry for the key of every field for which the code makes the
    required lookup: a field declared required that holds the empty string,
    a zero of a signed integer or float kind, a nil input or a zero literal
    (and, for a bool field, that holds [true]). *)
Theorem ExtractConfig_Nil_has_required_keys ext ctx namespace fields obj' keys :
  ExtractConfig ext ctx namespace (target fields) = (obj', keys, Nil) ->
  forall ff name sec,
    ff ∈ fields ->
    configFieldName (ftag ff) = Some (name, sec) ->
    requiresKey ff = true ->
    is_Some (ctxConfig ctx !! fullKey (config_New ctx namespace) name).
Proof.
  unfold ExtractConfig, target.
  destruct (extractFields ext (config_New ctx namespace) fields)
    as [[fields' keys0] o0] eqn:Hrun.
  intros [= _ _ ->] ff name sec Hin Hn Hreq.
  apply list_elem_of_lookup in Hin as [k Hk].
  destruct (extractFields_Nil _ _ _ _ _ Hrun _ _ Hk) as (fv' & keys' & Hf & _).
  destruct (ctxConfig ctx !! fullKey (config_New ctx namespace) name) eqn:Hget; [eauto|].
  rewrite (extractField_required_missing ext (config_New ctx namespace) ff name sec
             Hn Hreq Hget) in Hf.
  discriminate Hf.
Qed.

(** ** Absent optional configuration *)




(** ** Secret inputs *)

Lemma getConfigString_value cfg params v :
  snd (getConfigString cfg params) = Got v ->
  v = default "" (ctxConfig (cfg_ctx cfg) !! fullKey cfg (fieldName params)).
Proof.
  unfold getConfigString, optional, cfg_Require, cfg_Get.
  destruct (isRequired params); cbn [snd].
  - destruct (_ !! _); [now intros [= ->]|discriminate].
  - now intros [= ->].
Qed.

Lemma extractInput_secret {A : Type} cfg name req
    (getSecret : Config -> configParams -> list string * read (Output A))
    getConfig fv output literal nonZero okOrNil fv' keys :
  extractInput cfg (mkParams name req true) getSecret getConfig fv
    output literal nonZero okOrNil = (fv', keys, Continue) ->
  exists o, snd (getSecret cfg (mkParams name req true)) = Got o /\ fv' = output o.
Proof.
  unfold extractInput. cbn [isSecret].
  destruct (snd (getSecret cfg _)) as [o|p]; [|discriminate].
  intros [= <- _]. eauto.
Qed.

Lemma secretOf_Got {A : Type} (r : list string * read A) o :
  snd (secretOf r) = Got o -> exists v, snd r = Got v /\ o = mkOutput v true.
Proof.
  unfold secretOf, readMap. cbn [snd]. destruct (snd r); [|discriminate].
  intros [= <-]. eauto.
Qed.

(** What the body of the loop makes of a secret field of input-interface
    type. *)
Lemma extractField_secret_input ext cfg ff i d name fv' keys :
  fval ff = VInterface i d ->
  isInput i = true ->
  configFieldName (ftag ff) = Some (name, true) ->
  extractField ext cfg ff = (fv', keys, Continue) ->
  exists out,
    fv' = VInterface i (Some out)
    /\ secretOutputOf i out = true
    /\ (i = StringInput ->
        out = pulumi_StringOutput
                (mkOutput (default "" (ctxConfig (cfg_ctx cfg) !! fullKey cfg name)) true)).
Proof.
  intros Hv Hi Hn. unfold extractField. rewrite Hn, Hv.
  destruct i; try discriminate Hi.
  - destruct (match d with Some (pulumi_String s) => (s, true) | _ => ("", false) end)
      as [curr ok].
    intros Hrun. apply extractInput_secret in Hrun as (o & Ho & ->).
    apply secretOf_Got in Ho as (v & Hv' & ->).
    apply getConfigString_value in Hv'. cbn [fieldName] in Hv'. subst v.
    eexists. split; [reflexivity|]. split; [reflexivity|]. reflexivity.
  - destruct (match d with Some (pulumi_Bool b) => (b, true) | _ => (false, false) end)
      as [curr ok].
    intros Hrun. apply extractInput_secret in Hrun as (o & Ho & ->).
    apply secretOf_Got in Ho as (v & _ & ->).
    eexists. split; [reflexivity|]. split; [reflexivity|]. discriminate.
  - destruct (match d with Some (pulumi_Int n) => (n, true) | _ => (0, false) end)
      as [curr ok].
    intros Hrun. apply extractInput_secret in Hrun as (o & Ho & ->).
    apply secretOf_Got in Ho as (v & _ & ->).
    eexists. split; [reflexivity|]. split; [reflexivity|]. discriminate.
  - destruct (match d with Some (pulumi_Float64 x) => (x, true) | _ => (fzero, false) end)
      as [curr ok].
    intros Hrun. apply extractInput_secret in Hrun as (o & Ho & ->).
    apply secretOf_Got in Ho as (v & _ & ->).
    eexists. split; [reflexivity|]. split; [reflexivity|]. discriminate.
Qed.

(** X5: when [ExtractConfig] returns a nil error, every field of one of the
    four input-interface types named by a secret tag holds an output of its
    capability marked secret, whatever it held before (a literal and an
    unresolved handle are replaced alike); for a string input the output
    carries the configuration value of the key, the empty string when the
    key has no entry. *)
Theorem ExtractConfig_secret_inputs ext ctx namespace fields fields' keys :
  ExtractConfig ext ctx namespace (target fields) = (target fields', keys, Nil) ->
  forall k ff i d name,
    fields !! k = Some ff ->
    fval ff = VInterface i d ->
    isInput i = true ->
    configFieldName (ftag ff) = Some (name, true) ->
    exists out,
      fields' !! k = Some (mkField (fname ff) (ftag ff) (VInterface i (Some out)))
      /\ secretOutputOf i out = true
      /\ (i = StringInput ->
          out = pulumi_StringOutput
                  (mkOutput (default "" (ctxConfig ctx
                                           !! fullKey (config_New ctx namespace) name))
                     true)).
Proof.
  unfold ExtractConfig, target.
  destruct (extractFields ext (config_New ctx namespace) fields)
    as [[fields0 keys0] o0] eqn:Hrun.
  intros [= -> _ ->] k ff i d name Hk Hv Hi Hn.
  destruct (extractFields_Nil _ _ _ _ _ Hrun _ _ Hk) as (fv' & keys' & Hf & Hl).
  destruct (extractField_secret_input _ _ _ _ _ _ _ _ Hv Hi Hn Hf)
    as (out & -> & Hsec & Hval).
  exists out. now split.
Qed.

(** ** Integer fields *)

Lemma wrapS_range w n : 0 < w -> - 2 ^ (w - 1) <= wrapS w n < 2 ^ (w - 1).
Proof.
  intros Hw. unfold wrapS.
  assert (H2 : 2 ^ w = 2 * 2 ^ (w - 1)).
  { replace w with (Z.succ (w - 1)) at 1 by lia. apply Z.pow_succ_r. lia. }
  assert (Hp : 0 < 2 ^ (w - 1)) by (apply Z.pow_pos_nonneg; lia).
  pose proof (Z.mod_pos_bound n (2 ^ w) ltac:(lia)) as Hm.
  destruct (n mod 2 ^ w <? 2 ^ (w - 1)) eqn:E; lia.
Qed.



Lemma getConfigInt_value ext cfg params val :
  snd (getConfigInt ext cfg params) = Got val ->
  val <> 0 ->
  exists v, ctxConfig (cfg_ctx cfg) !! fullKey cfg (fieldName params) = Some v
            /\ val = wrapS 64 (cast_ToInt ext v).
Proof.
  unfold getConfigInt, optional, cfg_RequireInt, cfg_GetInt, readMap, cfg_Require, cfg_Get.
  destruct (isRequired params); cbn [snd fst];
    destruct (_ !! _) as [v|]; try discriminate; intros [= <-] Hnz; eauto.
  now contradiction Hnz.
Qed.

(** What the body of the loop makes of an integer field. *)
Lemma extractField_int ext cfg ff kd n fv' keys c :
  fval ff = VInt kd n ->
  extractField ext cfg ff = (fv', keys, c) ->
  fv' = VInt kd n
  \/ exists name sec v,
       configFieldName (ftag ff) = Some (name, sec)
       /\ signed kd = true
       /\ ctxConfig (cfg_ctx cfg) !! fullKey cfg name = Some v
       /\ wrapS 64 (cast_ToInt ext v) <> 0
       /\ fv' = VInt kd (wrapS (bits kd) (wrapS 64 (cast_ToInt ext v))).
Proof.
  intros Hv. unfold extractField. rewrite Hv.
  destruct (configFieldName (ftag ff)) as [[name sec]|]; [|intros [= <- _ _]; now left].
  destruct (signed kd) eqn:Hs.
  - unfold extractScalar.
    destruct (snd (getConfigInt ext cfg _)) as [val|p] eqn:Hr;
      [|intros [= <- _ _]; now left].
    destruct sec; [intros [= <- _ _]; now left|].
    destruct (val =? 0) eqn:Hz; cbn [negb]; intros [= <- _ _]; [now left|right].
    apply Z.eqb_neq in Hz.
    destruct (getConfigInt_value _ _ _ _ Hr Hz) as (v & Hget & ->).
    exists name, false, v. repeat split; assumption.
  - unfold extractUnsigned. destruct (hasRequired (ftag ff)); [intros [= <- _ _]; now left|].
    destruct (snd (getConfigInt ext cfg _)) as [val|p]; [|intros [= <- _ _]; now left].
    destruct sec; [intros [= <- _ _]; now left|].
    destruct (negb (val =? 0)); intros [= <- _ _]; now left.
Qed.


(** ** The array binder on a slice that already has elements *)

Lemma arrayLoop_frame r elem initalLen arr :
  forall i s s' o,
    length (sliceList s) = (initalLen + i)%nat ->
    arrayLoop r elem initalLen i arr s = (s', o) ->
    exists t,
      sliceList s' = sliceList s ++ t
      /\ (length t <= length arr)%nat
      /\ (o = Nil -> length t = length arr)
      /\ (forall e, o = Err e ->
            exists j cause, e = ErrJsonArrayIndex j cause
                            /\ (i <= j < i + length arr)%nat
                            /\ length t = S (j - i)).
Proof.
  induction arr as [|val rest IH]; intros i s s' o Hlen Hrun.
  - injection Hrun as <- <-. exists []. rewrite app_nil_r.
    repeat split; try reflexivity. discriminate.
  - cbn [arrayLoop] in Hrun.
    assert (Hstop : forall (p : panic), (s', o) = (s, Panic p) ->
              exists t, sliceList s' = sliceList s ++ t
                /\ (length t <= length (val :: rest))%nat
                /\ (o = Nil -> length t = length (val :: rest))
                /\ (forall e, o = Err e ->
                      exists j cause, e = ErrJsonArrayIndex j cause
                                      /\ (i <= j < i + length (val :: rest))%nat
                                      /\ length t = S (j - i))).
    { intros p [= -> ->]. exists []. rewrite app_nil_r.
      split; [reflexivity|]. split; [cbn; lia|]. split; discriminate. }
    destruct val as [| | | | |dict]; try (symmetry in Hrun; exact (Hstop _ Hrun)).
    clear Hstop.
    rewrite Hlen, Nat.leb_refl in Hrun.
    change (sliceList (Some (sliceList s ++ [zero elem])))
      with (sliceList s ++ [zero elem]) in Hrun.
    rewrite <- Hlen in Hrun.
    rewrite lookup_app_r, Nat.sub_diag in Hrun by lia. cbn [lookup list_lookup] in Hrun.
    destruct (r dict (AVal (Addr (zero elem)))) as [obj' o1].
    replace (length (sliceList s)) with (length (sliceList s) + 0)%nat in Hrun by lia.
    rewrite insert_app_r in Hrun. cbn [insert list_insert] in Hrun.
    set (e1 := Elem obj' (zero elem)) in *.
    assert (Hone : forall o2, (s', o) = (Some (sliceList s ++ [e1]), o2) ->
              o2 <> Nil ->
              (forall e, o2 = Err e -> exists cause, e = ErrJsonArrayIndex i cause) ->
              exists t, sliceList s' = sliceList s ++ t
                /\ (length t <= length (JObj dict :: rest))%nat
                /\ (o = Nil -> length t = length (JObj dict :: rest))
                /\ (forall e, o = Err e ->
                      exists j cause, e = ErrJsonArrayIndex j cause
                                      /\ (i <= j < i + length (JObj dict :: rest))%nat
                                      /\ length t = S (j - i))).
    { intros o2 [= -> ->] Hne Herr. exists [e1].
      split; [reflexivity|]. split; [cbn; lia|]. split; [intros; contradiction|].
      intros e He. destruct (Herr e He) as [cause ->].
      exists i, cause. split; [reflexivity|]. cbn [length]. split; [lia|].
      now rewrite Nat.sub_diag. }
    destruct o1 as [|err|p|].
    + apply IH in Hrun as (t & Ht & Hle & Hnil & Herr).
      * exists (e1 :: t). split.
        { rewrite Ht. change (sliceList (Some ?l)) with l. now rewrite <- app_assoc. }
        split; [cbn [length]; lia|]. split; [intros Ho; cbn [length]; now rewrite Hnil|].
        intros e He. destruct (Herr e He) as (j & cause & -> & Hj & Hlt).
        exists j, cause. split; [reflexivity|]. cbn [length]. split; [lia|].
        rewrite Hlt. lia.
      * change (sliceList (Some ?l)) with l. rewrite length_app. cbn [length]. lia.
    + symmetry in Hrun. apply (Hone _ Hrun); [discriminate|].
      intros e [= <-]. eauto.
    + symmetry in Hrun. apply (Hone _ Hrun); discriminate.
    + symmetry in Hrun. apply (Hone _ Hrun); discriminate.
Qed.

(** X7: binding a JSON array into a slice that already has elements never
    touches them, however the call ends: the result is the slice it started
    with followed by one element per array element reached.  A nil error
    means all of them were appended; an error names the index of the
    element of the array at which the binding stopped. *)
Theorem unmarshallJSONArray_keeps_elements elem arr s :
  exists s',
    fst (unmarshallJSONArray arr (AVal (VPtr (VSlice elem s))))
    = AVal (VPtr (VSlice elem s'))
    /\ take (length (sliceList s)) (sliceList s') = sliceList s
    /\ (length (sliceList s) <= length (sliceList s')
        <= length (sliceList s) + length arr)%nat
    /\ (snd (unmarshallJSONArray arr (AVal (VPtr (VSlice elem s)))) = Nil ->
        length (sliceList s') = (length (sliceList s) + length arr)%nat)
    /\ (forall e,
          snd (unmarshallJSONArray arr (AVal (VPtr (VSlice elem s)))) = Err e ->
          exists j cause,
            e = ErrJsonArrayIndex j cause /\ (j < length arr)%nat
            /\ length (sliceList s') = (length (sliceList s) + j + 1)%nat).
Proof.
  unfold unmarshallJSONArray. cbn [depth unmarshallJSONArray_fuel].
  unfold unmarshallJSONArray_body.
  destruct (arrayLoop _ elem _ 0 arr s) as [s' o] eqn:Hloop.
  apply arrayLoop_frame in Hloop as (t & Ht & Hle & Hnil & Herr); [|lia].
  exists s'. cbn [fst snd]. split; [reflexivity|].
  split; [rewrite Ht; apply take_app_length|].
  split; [rewrite Ht, length_app; lia|].
  split; [intros Ho; rewrite Ht, length_app, (Hnil Ho); lia|].
  intros e He. destruct (Herr e He) as (j & cause & -> & Hj & Hlt).
  exists j, cause. split; [reflexivity|]. split; [lia|].
  rewrite Ht, length_app, Hlt. lia.
Qed.

(** ** The fields are bound one after the other *)

Lemma extractFields_app ext cfg pre rest :
  extractFields ext cfg (pre ++ rest)
  = let '(pre', keys, o) := extractFields ext cfg pre in
    match o with
    | Nil =>
        let '(rest', keys', o') := extractFields ext cfg rest in
        (pre' ++ rest', keys ++ keys', o')
    | _ => (pre' ++ rest, keys, o)
    end.
Proof.
  induction pre as [|ff pre IH].
  - cbn. now destruct (extractFields ext cfg rest) as [[rest' keys'] o'].
  - cbn [app extractFields].
    pose proof (extractField_no_return_nil ext cfg ff) as Hnil.
    destruct (extractField ext cfg ff) as [[fv1 keys1] c]. destruct c as [|o1].
    + rewrite IH. destruct (extractFields ext cfg pre) as [[pre' keys] o].
      destruct o; try reflexivity.
      destruct (extractFields ext cfg rest) as [[rest' keys'] o'].
      now rewrite app_assoc.
    + cbn in Hnil. destruct o1; try reflexivity. contradiction.
Qed.

(** X8: [ExtractConfig] binds the fields in order and each on its own: on a
    struct whose fields are those of [pre] followed by those of [rest], it
    does to the first part what it does to [pre] alone; when that returns a
    nil error it then does to the second part what it does to [rest] alone,
    and otherwise it ends there and the second part is untouched. *)
Theorem ExtractConfig_app ext ctx namespace pre rest :
  exists pre' keys o,
    ExtractConfig ext ctx namespace (target pre) = (target pre', keys, o)
    /\ ((o = Nil
         /\ exists rest' keys' o',
              ExtractConfig ext ctx namespace (target rest) = (target rest', keys', o')
              /\ ExtractConfig ext ctx namespace (target (pre ++ rest))
                 = (target (pre' ++ rest'), keys ++ keys', o'))
        \/ (o <> Nil
            /\ ExtractConfig ext ctx namespace (target (pre ++ rest))
               = (target (pre' ++ rest), keys, o))).
Proof.
  unfold ExtractConfig, target. rewrite extractFields_app.
  destruct (extractFields ext (config_New ctx namespace) pre) as [[pre' keys] o].
  exists pre', keys, o. split; [reflexivity|].
  destruct o; try (right; split; [discriminate|reflexivity]).
  left. split; [reflexivity|].
  destruct (extractFields ext (config_New ctx namespace) rest) as [[rest' keys'] o'].
  exists rest', keys', o'. now split.
Qed.

(** ** The shape of the JSON of a structural field *)

Lemma loadJsonConfig_text cfg name req curr data :
  ctxConfig (cfg_ctx cfg) !! fullKey cfg name = Some data ->
  isEmpty data = false ->
  loadJsonConfig cfg name req curr = ([fullKey cfg name], inl data).
Proof.
  intros Hget He. unfold loadJsonConfig, cfg_Get. rewrite Hget.
  cbv beta iota zeta. cbn [default]. unfold id. rewrite He, andb_false_r. reflexivity.
Qed.

Lemma unmarshallJSONArray_not_slice arr v :
  (forall elem s, v <> VSlice elem s) ->
  unmarshallJSONArray arr (AVal (VPtr v)) = (AVal (VPtr v), Err (ErrObjNotSlicePtr KPointer)).
Proof.
  intros Hv. unfold unmarshallJSONArray. cbn [depth unmarshallJSONArray_fuel].
  unfold unmarshallJSONArray_body. destruct v; try reflexivity. now contradiction (Hv elem s).
Qed.

Lemma unmarshallJSONMap_not_struct dict v :
  (forall fields, v <> VStruct fields) ->
  unmarshallJSONMap dict (AVal (VPtr v)) = (AVal (VPtr v), Err ErrObjNotStructPtr).
Proof.
  intros Hv. unfold unmarshallJSONMap. cbn [depth unmarshallJSONMap_fuel].
  unfold unmarshallJSONMap_body. destruct v; try reflexivity. now contradiction (Hv fields).
Qed.

(** The JSON text of a struct or slice field whose binding went through. *)
Lemma extractField_shape ext cfg ff name sec data fv' keys :
  configFieldName (ftag ff) = Some (name, sec) ->
  ctxConfig (cfg_ctx cfg) !! fullKey cfg name = Some data ->
  isEmpty data = false ->
  extractField ext cfg ff = (fv', keys, Continue) ->
  match fval ff with
  | VStruct _ => exists dict, json_Unmarshal ext data = Some (JObj dict)
  | VSlice _ _ => exists arr, json_Unmarshal ext data = Some (JArr arr)
  | VArray _ _ => False
  | _ => True
  end.
Proof.
  intros Hn Hget He. unfold extractField. rewrite Hn.
  destruct (fval ff) as [| | | | | |fields| | |elem s|elem a|]; try (intros; exact I);
    unfold extractStructural;
    match goal with
    | |- context [if negb ?b then _ else _] => destruct (negb b)
    end;
    cbn [Interface Addr];
    rewrite (loadJsonConfig_text _ _ _ _ _ Hget He);
    unfold UnmarshalJSONConfig; rewrite He;
    (destruct (json_Unmarshal ext data) as [[| | | |arr|dict]|]; try discriminate; eauto);
    try (rewrite unmarshallJSONArray_not_slice by discriminate; discriminate);
    try (rewrite unmarshallJSONMap_not_struct by discriminate; discriminate).
Qed.

(** X9: when [ExtractConfig] returns a nil error, the configuration text of
    every struct field that has one decodes to a JSON object and that of
    every slice field to a JSON array: a text of another shape, or one that
    does not decode, ends the call with an error.  No field of array kind
    has a configuration text then: the array binder takes slices only. *)
Theorem ExtractConfig_Nil_shapes ext ctx namespace fields obj' keys :
  ExtractConfig ext ctx namespace (target fields) = (obj', keys, Nil) ->
  forall ff name sec data,
    ff ∈ fields ->
    configFieldName (ftag ff) = Some (name, sec) ->
    ctxConfig ctx !! fullKey (config_New ctx namespace) name = Some data ->
    isEmpty data = false ->
    match fval ff with
    | VStruct _ => exists dict, json_Unmarshal ext data = Some (JObj dict)
    | VSlice _ _ => exists arr, json_Unmarshal ext data = Some (JArr arr)
    | VArray _ _ => False
    | _ => True
    end.
Proof.
  unfold ExtractConfig, target.
  destruct (extractFields ext (config_New ctx namespace) fields)
    as [[fields' keys0] o0] eqn:Hrun.
  intros [= _ _ ->] ff name sec data Hin Hn Hget He.
  apply list_elem_of_lookup in Hin as [k Hk].
  destruct (extractFields_Nil _ _ _ _ _ Hrun _ _ Hk) as (fv' & keys' & Hf & _).
  exact (extractField_shape ext (config_New ctx namespace) ff name sec data fv' keys'
           Hn Hget He Hf).
Qed.

(** ** What MarshalJSONConfig hands to the encoder *)





(** ** setFieldValue *)



(** ** The loop of the structural binder *)

Lemma forFields_lookup body fields :
  forall fields' o,
    forFields body fields = (fields', o) ->
    length fields' = length fields
    /\ forall k ff,
         fields !! k = Some ff ->
         exists fv',
           fields' !! k = Some (mkField (fname ff) (ftag ff) fv')
           /\ (fv' = fval ff \/ fv' = fst (body ff)).
Proof.
  induction fields as [|f rest IH]; intros fields' o; cbn [forFields].
  - intros [= <- _]. split; [reflexivity|]. intros k ff Hk. discriminate Hk.
  - destruct (body f) as [fv c] eqn:Hb. destruct c as [|o1].
    + destruct (forFields body rest) as [rest' o2] eqn:Hrest. intros [= <- _].
      destruct (IH _ _ eq_refl) as [Hlen Hrec]. split; [cbn; now rewrite Hlen|].
      intros [|k] ff Hk; cbn in Hk.
      * injection Hk as <-. exists fv. split; [reflexivity|]. right.
        now rewrite Hb.
      * exact (Hrec k ff Hk).
    + intros [= <- _]. split; [reflexivity|].
      intros [|k] ff Hk; cbn in Hk.
      * injection Hk as <-. exists fv. split; [reflexivity|]. right. now rewrite Hb.
      * exists (fval ff). split; [|now left]. cbn. rewrite Hk. now destruct ff.
Qed.


(** The fields behind a field at which the loop returns. *)
Lemma forFields_return body ff rest :
  (exists o, snd (body ff) = Return o) ->
  forall pre,
    exists pre' fv',
      fst (forFields body (pre ++ ff :: rest))
      = pre' ++ mkField (fname ff) (ftag ff) fv' :: rest
      /\ length pre' = length pre.
Proof.
  intros [o Ho]. induction pre as [|f pre IH]; cbn [app forFields].
  - destruct (body ff) as [fv c]. cbn in Ho. subst c.
    exists [], fv. split; reflexivity.
  - destruct (body f) as [fv c]. destruct c as [|o1].
    + destruct IH as (pre' & fv' & Heq & Hlen).
      destruct (forFields body (pre ++ ff :: rest)) as [l o2]. cbn [fst] in *.
      exists (mkField (fname f) (ftag f) fv :: pre'), fv'. subst l.
      split; [reflexivity|]. cbn. now rewrite Hlen.
    + exists (mkField (fname f) (ftag f) fv :: pre), (fval ff). cbn [fst].
      split; [|reflexivity]. cbn. now destruct ff.
Qed.



Lemma unmarshallJSONMap_unfold dict fields :
  unmarshallJSONMap dict (target fields)
  = (let '(fields', o) :=
       forFields (mapField (unmarshallJSONMap_fuel (pred (depth (JObj dict))))
                    (unmarshallJSONArray_fuel (pred (depth (JObj dict)))) dict) fields in
     (target fields', o)).
Proof. reflexivity. Qed.

(** ** Keys that are absent *)



(** ** Fields behind a pointer to a scalar *)

Lemma mapField_pointerToScalar r a dict ff :
  pointerToScalar dict ff = true ->
  exists o, snd (mapField r a dict ff) = Return o.
Proof.
  unfold pointerToScalar, mapField.
  destruct (jsonFieldName (ftag ff)) as [name|]; [|discriminate].
  destruct (fval ff) as [| | | | | | |elem|pointee| | |]; try discriminate;
    (destruct (dictGet dict name) as [val|]; [|discriminate]);
    cbn [mapStructuralField]; unfold mapPointerField;
    destruct val; try discriminate; intros _;
    match goal with
    | |- context [setFieldValue ?p ?v ?n] => destruct (setFieldValue p v n) as [p' o]
    end; exists o; reflexivity.
Qed.

(** X13: the fields declared behind a pointer field whose key holds a JSON
    value that is neither an object nor an array are never bound: the branch
    returns what [setFieldValue] returned, a nil error included, instead of
    going on with the next field. *)
Theorem unmarshallJSONMap_stops_at_pointer dict pre ff rest :
  pointerToScalar dict ff = true ->
  exists pre' fv',
    fst (unmarshallJSONMap dict (target (pre ++ ff :: rest)))
    = target (pre' ++ mkField (fname ff) (ftag ff) fv' :: rest)
    /\ length pre' = length pre.
Proof.
  intros Hp. rewrite unmarshallJSONMap_unfold.
  destruct (forFields_return
              (mapField (unmarshallJSONMap_fuel (pred (depth (JObj dict))))
                 (unmarshallJSONArray_fuel (pred (depth (JObj dict)))) dict)
              ff rest (mapField_pointerToScalar _ _ dict ff Hp) pre)
    as (pre' & fv' & Heq & Hlen).
  exists pre', fv'. split; [|exact Hlen].
  destruct (forFields _ _) as [l o]. cbn [fst] in *. now subst l.
Qed.

(** ** Fields that are never written *)

Lemma mapField_neverBound r a dict ff :
  neverBound ff = true -> fst (mapField r a dict ff) = fval ff.
Proof.
  unfold neverBound, mapField.
  destruct (jsonFieldName (ftag ff)) as [name|]; [|reflexivity].
  destruct (fval ff) as [| | | | |m| | | | |elem l|i d]; try discriminate.
  - intros _. destruct (dictGet dict name); reflexivity.
  - intros _. destruct (dictGet dict name); reflexivity.
  - unfold mapInterfaceField, unresolved, holdsLiteral.
    destruct i; intros Hu; destruct (dictGet dict name) as [val|]; try reflexivity;
      destruct d as [[]|]; try discriminate; try reflexivity.
Qed.

(** X14: however [unmarshallJSONMap] ends, the struct has the fields it had
    and those the binder never writes are unchanged, whatever the JSON
    object holds under their key: a field of type [pulumi.IntInput] or of
    map or array kind, and an input that holds an unresolved handle, cannot
    be set from nested JSON. *)
Theorem unmarshallJSONMap_never_binds dict fields :
  exists fields',
    fst (unmarshallJSONMap dict (target fields)) = target fields'
    /\ length fields' = length fields
    /\ forall k ff,
         fields !! k = Some ff -> neverBound ff = true -> fields' !! k = Some ff.
Proof.
  rewrite unmarshallJSONMap_unfold.
  destruct (forFields _ fields) as [fields' o] eqn:Hrun.
  destruct (forFields_lookup _ _ _ _ Hrun) as [Hlen Hl].
  exists fields'. split; [reflexivity|]. split; [exact Hlen|].
  intros k ff Hk Hn. destruct (Hl k ff Hk) as (fv' & Hk' & Hfv).
  rewrite Hk'. f_equal.
  assert (fv' = fval ff) as ->.
  { destruct Hfv as [->| ->]; [reflexivity|]. now apply mapField_neverBound. }
  now destruct ff.
Qed.

(** ** Scalar fields of a nested struct *)





(** ** Zero values read from the configuration *)

Lemma wrapS_idem w n : 0 < w -> wrapS w (wrapS w n) = wrapS w n.
Proof.
  intros Hw. pose proof (wrapS_range w n Hw) as Hr.
  set (x := wrapS w n) in *. unfold wrapS.
  assert (Hp : 2 ^ w = 2 * 2 ^ (w - 1)).
  { replace w with (1 + (w - 1)) at 1 by lia. rewrite Z.pow_add_r by lia. reflexivity. }
  assert (Hpos : 0 < 2 ^ (w - 1)) by (apply Z.pow_pos_nonneg; lia).
  destruct (Z.ltb_spec x 0) as [Hneg|Hnn].
  - assert (Hm : x mod 2 ^ w = x + 2 ^ w).
    { symmetry. apply (Z.mod_unique_pos _ _ (-1)); lia. }
    rewrite Hm. destruct (Z.ltb_spec (x + 2 ^ w) (2 ^ (w - 1))); lia.
  - rewrite Z.mod_small by lia. destruct (Z.ltb_spec x (2 ^ (w - 1))); lia.
Qed.

Lemma extractScalar_assign {A : Type} (r : list string * read A) sec name fv assign fv' keys c :
  extractScalar r sec name fv assign = (fv', keys, c) ->
  fv' = fv \/ exists val, snd r = Got val /\ fv' = assign val.
Proof.
  unfold extractScalar. destruct (snd r) as [val|p].
  - destruct sec; intros [= <- _ _]; [now left|right; eauto].
  - intros [= <- _ _]. now left.
Qed.

Lemma extractField_wideScalar ext cfg ff fv' keys c :
  wideScalar (fval ff) = true ->
  extractField ext cfg ff = (fv', keys, c) ->
  fv' = fval ff \/ IsZero fv' = false.
Proof.
  intros Hw Hf.
  destruct (fval ff) as [b|k n|k x|s| | | | | | | |] eqn:Hfv; try discriminate Hw.
  - unfold extractField in Hf. rewrite Hfv in Hf.
    destruct (configFieldName (ftag ff)) as [[name sec]|]; [|left; congruence].
    apply extractScalar_assign in Hf as [->|(val & _ & ->)]; [now left|].
    destruct val; [now right|now left].
  - destruct (extractField_int ext cfg ff k n fv' keys c Hfv Hf)
      as [->|(name & sec & v & _ & _ & _ & Hnz & ->)]; [now left|].
    right. assert (bits k = 64) as -> by (destruct k; try discriminate Hw; reflexivity).
    rewrite wrapS_idem by lia. cbn [IsZero]. now apply Z.eqb_neq.
  - unfold extractField in Hf. rewrite Hfv in Hf.
    destruct (configFieldName (ftag ff)) as [[name sec]|]; [|left; congruence].
    apply extractScalar_assign in Hf as [->|(val & _ & ->)]; [now left|].
    destruct (fIsZero val) eqn:Hz; cbn [negb]; [now left|right].
    destruct k; [discriminate Hw|]. cbn [IsZero].
    destruct val as [[]| | |]; try reflexivity; discriminate Hz.
  - unfold extractField in Hf. rewrite Hfv in Hf.
    destruct (configFieldName (ftag ff)) as [[name sec]|]; [|left; congruence].
    apply extractScalar_assign in Hf as [->|(val & _ & ->)]; [now left|].
    unfold isEmpty. destruct (decide (val = "")) as [E|E]; cbn [negb]; [now left|right].
    cbn [IsZero]. now rewrite decide_False.
Qed.

(** X16: [ExtractConfig] never puts the zero value in a field of kind bool,
    int, int64, float64 or string: whatever the configuration holds and
    however the call ends, such a field keeps its value or gets one that is
    not zero, so that a default set by the caller cannot be switched back
    to false, 0 or the empty string from the configuration. *)
Theorem ExtractConfig_never_zeroes ext ctx namespace fields k ff :
  fields !! k = Some ff ->
  wideScalar (fval ff) = true ->
  exists fields' fv',
    fst (fst (ExtractConfig ext ctx namespace (target fields))) = target fields'
    /\ fields' !! k = Some (mkField (fname ff) (ftag ff) fv')
    /\ (fv' = fval ff \/ IsZero fv' = false).
Proof.
  intros Hk Hw. unfold ExtractConfig, target.
  destruct (extractFields ext (config_New ctx namespace) fields)
    as [[fields' keys] o] eqn:Hrun.
  destruct (extractFields_lookup _ _ _ _ _ _ _ _ Hrun Hk) as (fv' & Hl & Hfv).
  exists fields', fv'. split; [reflexivity|]. split; [exact Hl|].
  destruct Hfv as [->|(keys' & c & Hf)]; [now left|].
  exact (extractField_wideScalar ext _ ff fv' keys' c Hw Hf).
Qed.

(** * The postgres components *)

(** ** The props of a database *)

Lemma fillRoles_None roles :
  postgres.fillRoles roles = None <-> forallb knownPermission roles = true.
Proof.
  induction roles as [|role rest IH]; cbn [postgres.fillRoles forallb]; [tauto|].
  unfold postgres.PostgresDbRoleProps_fillRuntimeInputs, knownPermission at 1.
  destruct (decide (postgres.Permission role <> postgres.ReadOnly
                    /\ postgres.Permission role <> postgres.ReadWrite)) as [[H1 H2]|H].
  - rewrite !bool_decide_eq_false_2 by assumption. cbn. split; discriminate.
  - rewrite IH.
    assert (bool_decide (postgres.Permission role = postgres.ReadOnly)
            || bool_decide (postgres.Permission role = postgres.ReadWrite) = true) as ->;
      [|reflexivity].
    destruct (decide (postgres.Permission role = postgres.ReadOnly)) as [E|E].
    + now rewrite (bool_decide_eq_true_2 _ E).
    + destruct (decide (postgres.Permission role = postgres.ReadWrite)) as [E'|E'].
      * rewrite (bool_decide_eq_true_2 _ E'). apply orb_true_r.
      * now contradiction H.
Qed.

Lemma fillRoles_Some roles err :
  postgres.fillRoles roles = Some err ->
  exists pre role rest,
    roles = pre ++ role :: rest
    /\ forallb knownPermission pre = true
    /\ knownPermission role = false
    /\ err = postgres.ErrInvalidPermission (postgres.Permission role).
Proof.
  induction roles as [|role rest IH]; cbn [postgres.fillRoles]; [discriminate|].
  destruct (postgres.PostgresDbRoleProps_fillRuntimeInputs role) as [e|] eqn:Hrole.
  - intros [= <-]. exists [], role, rest. split; [reflexivity|]. split; [reflexivity|].
    unfold postgres.PostgresDbRoleProps_fillRuntimeInputs in Hrole.
    destruct (decide _) as [[H1 H2]|_] in Hrole; [|discriminate].
    injection Hrole as <-. split; [|reflexivity].
    unfold knownPermission. now rewrite !bool_decide_eq_false_2.
  - intros Hrest. destruct (IH Hrest) as (pre & role' & rest' & -> & Hpre & Hrole' & ->).
    exists (role :: pre), role', rest'. split; [reflexivity|].
    split; [|split; [exact Hrole'|reflexivity]].
    cbn [forallb]. rewrite Hpre, andb_true_r.
    assert (H : forallb knownPermission [role] = true).
    { apply fillRoles_None. cbn [postgres.fillRoles]. now rewrite Hrole. }
    cbn [forallb] in H. now rewrite andb_true_r in H.
Qed.

(** X17: [fillRuntimeInputs] of the props of a database keeps the name of
    the database and the roles given, and puts one read-write role when none
    is given; it returns a nil error exactly when at most two roles are
    given and each has the permission ro or rw (two roles of the same
    permission pass); after a nil error there are one or two roles; more
    than two roles give the error on their number whatever their
    permissions; an error on a permission names the first role whose
    permission is neither; and a second call returns what the first did. *)
Theorem PostgresDbProps_fillRuntimeInputs_spec props :
  let run := postgres.PostgresDbProps_fillRuntimeInputs props in
  postgres.Database (fst run) = postgres.Database props
  /\ postgres.DbRoles (fst run)
     = match postgres.DbRoles props with
       | [] => [postgres.mkDbRoleProps postgres.ReadWrite]
       | roles => roles
       end
  /\ (snd run = None <->
      (length (postgres.DbRoles props) <= 2)%nat
      /\ forallb knownPermission (postgres.DbRoles props) = true)
  /\ (snd run = None -> (1 <= length (postgres.DbRoles (fst run)) <= 2)%nat)
  /\ (snd run = Some postgres.ErrTooManyRoles <->
      (2 < length (postgres.DbRoles props))%nat)
  /\ (forall p, snd run = Some (postgres.ErrInvalidPermission p) ->
      exists pre role rest,
        postgres.DbRoles props = pre ++ role :: rest
        /\ forallb knownPermission pre = true
        /\ knownPermission role = false
        /\ p = postgres.Permission role)
  /\ postgres.PostgresDbProps_fillRuntimeInputs (fst run) = run.
Proof.
  cbv zeta. unfold postgres.PostgresDbProps_fillRuntimeInputs.
  destruct props as [database roles]. cbn [postgres.DbRoles postgres.Database].
  destruct roles as [|r1 [|r2 [|r3 rest]]]; cbn [length Nat.eqb Nat.ltb Nat.leb fst snd
    postgres.DbRoles postgres.Database].
  - repeat split; try reflexivity; try lia; try discriminate.
  - repeat split; try reflexivity; try lia; try discriminate.
    + now apply fillRoles_None.
    + intros [_ H]. now apply fillRoles_None.
    + intros H. apply fillRoles_Some in H as (pre & role & rest & _ & _ & _ & H).
      discriminate.
    + intros p H. apply fillRoles_Some in H as (pre & role & rest & -> & Hp & Hr & H).
      injection H as ->. eauto 7.
  - repeat split; try reflexivity; try lia; try discriminate.
    + now apply fillRoles_None.
    + intros [_ H]. now apply fillRoles_None.
    + intros H. apply fillRoles_Some in H as (pre & role & rest & _ & _ & _ & H).
      discriminate.
    + intros p H. apply fillRoles_Some in H as (pre & role & rest & -> & Hp & Hr & H).
      injection H as ->. eauto 7.
  - repeat split; try reflexivity; try lia; try discriminate.
Qed.

(** ** What the database component registers *)

Lemma registerAll_app eng reqs1 reqs2 :
  forall ctx,
    postgres.registerAll eng ctx (reqs1 ++ reqs2)
    = match postgres.registerAll eng ctx reqs1 with
      | (ctx', postgres.Nil) => postgres.registerAll eng ctx' reqs2
      | run => run
      end.
Proof.
  induction reqs1 as [|req reqs1 IH]; intros ctx; cbn [app postgres.registerAll];
    [reflexivity|].
  destruct (postgres.register eng ctx req) as [ctx1 [res|err]]; [apply IH|reflexivity].
Qed.

(** Constructors called in a row register a prefix of their requests, and
    stop at the first the engine rejects. *)
Lemma registerAll_prefix eng reqs :
  forall ctx ctx' o,
    postgres.registerAll eng ctx reqs = (ctx', o) ->
    postgres.outputs ctx' = postgres.outputs ctx
    /\ exists n,
         postgres.registered ctx' = postgres.registered ctx ++ take n reqs
         /\ (o = postgres.Nil /\ n = length reqs
             \/ exists req, reqs !! n = Some req
                  /\ o = postgres.Err (postgres.ErrEngine req)
                  /\ postgres.rejects eng (postgres.registered ctx') req = true).
Proof.
  induction reqs as [|req reqs IH]; intros ctx ctx' o; cbn [postgres.registerAll].
  - intros [= <- <-]. split; [reflexivity|]. exists 0%nat.
    split; [now rewrite app_nil_r|]. now left.
  - unfold postgres.register.
    destruct (postgres.rejects eng (postgres.registered ctx) req) eqn:Hrej.
    + intros [= <- <-]. split; [reflexivity|]. exists 0%nat.
      split; [now rewrite app_nil_r|]. right. exists req. now repeat split.
    + intros Hrest. destruct (IH _ _ _ Hrest) as [Hout (n & Hreg & Hn)].
      cbn [postgres.outputs postgres.registered] in Hout, Hreg.
      split; [exact Hout|]. exists (S n). cbn [take].
      split; [now rewrite Hreg, <- app_assoc|].
      destruct Hn as [[-> ->]|Hn]; [now left|right; exact Hn].
Qed.

Lemma rolesLoop_registerAll eng namePrefix users :
  forall i ctx r owner,
    (i + length users <= length (postgres.Roles r))%nat ->
    exists r' owner',
      postgres.rolesLoop eng namePrefix i users ctx r owner
      = (fst (postgres.registerAll eng ctx
                (map (roleRequest (postgres.db_ResourceState r) namePrefix) users)),
         r', owner',
         snd (postgres.registerAll eng ctx
                (map (roleRequest (postgres.db_ResourceState r) namePrefix) users)))
      /\ postgres.db_ResourceState r' = postgres.db_ResourceState r
      /\ postgres.DB r' = postgres.DB r
      /\ (snd (postgres.registerAll eng ctx
                 (map (roleRequest (postgres.db_ResourceState r) namePrefix) users))
          = postgres.Nil ->
          postgres.Roles r'
          = take i (postgres.Roles r)
            ++ map (fun user => Some (roleRequest (postgres.db_ResourceState r)
                                        namePrefix user)) users
            ++ drop (i + length users) (postgres.Roles r)
          /\ owner'
             = if existsb (fun user =>
                             bool_decide (postgres.Permission user = postgres.ReadWrite))
                    users
               then postgres.Name eng
                      (roleRequest (postgres.db_ResourceState r) namePrefix
                         (postgres.mkDbRoleProps postgres.ReadWrite))
               else owner).
Proof.
  induction users as [|user users IH]; intros i ctx r owner Hlen;
    cbn [postgres.rolesLoop map postgres.registerAll length].
  - exists r, owner. split; [reflexivity|]. split; [reflexivity|]. split; [reflexivity|].
    intros _. split; [|reflexivity]. cbn [map app]. rewrite Nat.add_0_r.
    now rewrite take_drop.
  - unfold postgres.provisionUser. fold (roleRequest (postgres.db_ResourceState r)
                                           namePrefix user).
    destruct (postgres.register eng ctx
                (roleRequest (postgres.db_ResourceState r) namePrefix user))
      as [ctx1 [role|err]] eqn:Hreg.
    + assert (role = roleRequest (postgres.db_ResourceState r) namePrefix user) as ->.
      { unfold postgres.register in Hreg.
        destruct (postgres.rejects eng _ _); now inversion Hreg. }
      cbn [length] in Hlen.
      assert (Hi : (i <? length (postgres.Roles r))%nat = true)
        by (apply Nat.ltb_lt; lia).
      rewrite Hi.
      set (r1 := postgres.mkDBResource (postgres.db_ResourceState r)
                   (<[i := Some (roleRequest (postgres.db_ResourceState r) namePrefix user)]>
                      (postgres.Roles r)) (postgres.DB r)).
      destruct (IH (S i) ctx1 r1
                  (if decide (postgres.Permission user = postgres.ReadWrite)
                   then postgres.Name eng
                          (roleRequest (postgres.db_ResourceState r) namePrefix user)
                   else owner))
        as (r' & owner' & Hrun & Hstate & Hdb & Hnil).
      { cbn [r1 postgres.Roles]. rewrite length_insert. lia. }
      cbn [r1 postgres.db_ResourceState postgres.DB postgres.Roles] in Hrun, Hstate, Hdb, Hnil.
      exists r', owner'. split; [exact Hrun|]. split; [exact Hstate|]. split; [exact Hdb|].
      intros Ho. destruct (Hnil Ho) as [Hroles Howner]. split.
      * rewrite Hroles. cbn [map].
        rewrite (take_S_r _ _ (Some (roleRequest (postgres.db_ResourceState r)
                                       namePrefix user)))
          by (apply list_lookup_insert_eq; lia).
        rewrite take_insert_ge by lia.
        rewrite drop_insert_lt by lia.
        rewrite <- app_assoc. cbn [app].
        now replace (S i + length users)%nat with (i + S (length users))%nat by lia.
      * rewrite Howner. cbn [existsb].
        destruct (decide (postgres.Permission user = postgres.ReadWrite)) as [E|E].
        -- rewrite (bool_decide_eq_true_2 _ E). cbn [orb].
           destruct (existsb _ users); [reflexivity|].
           destruct user as [p]. cbn in E. now subst p.
        -- now rewrite (bool_decide_eq_false_2 _ E).
    + exists r, owner. split; [reflexivity|]. split; [reflexivity|]. split; [reflexivity|].
      discriminate.
Qed.

Lemma readOnlyGrants_state r1 r2 namePrefix database roleName :
  postgres.db_ResourceState r1 = postgres.db_ResourceState r2 ->
  postgres.readOnlyGrants r1 namePrefix database roleName
  = postgres.readOnlyGrants r2 namePrefix database roleName.
Proof. unfold postgres.readOnlyGrants. now intros ->. Qed.

Lemma grantsOf_state eng r1 r2 namePrefix db user :
  postgres.db_ResourceState r1 = postgres.db_ResourceState r2 ->
  grantsOf eng r1 namePrefix db user = grantsOf eng r2 namePrefix db user.
Proof.
  intros H. unfold grantsOf. rewrite (readOnlyGrants_state r1 r2) by exact H.
  now rewrite H.
Qed.

Lemma grantsLoop_registerAll eng namePrefix props r db users :
  postgres.DB r = Some db ->
  forall i ctx,
    (forall j user, users !! j = Some user ->
       postgres.DbRoles props !! (i + j)%nat = Some user) ->
    postgres.grantsLoop eng namePrefix props i
      (map (fun user => Some (roleRequest (postgres.db_ResourceState r) namePrefix user))
         users) ctx r
    = postgres.registerAll eng ctx (concat (map (grantsOf eng r namePrefix db) users)).
Proof.
  intros Hdb. induction users as [|user users IH]; intros i ctx Hidx;
    cbn [map postgres.grantsLoop concat]; [reflexivity|].
  pose proof (Hidx 0%nat user eq_refl) as Hi. rewrite Nat.add_0_r in Hi. rewrite Hi.
  rewrite registerAll_app.
  assert (Hgrant : postgres.grantDBAccess eng ctx r namePrefix
                     (postgres.Name eng
                        (roleRequest (postgres.db_ResourceState r) namePrefix user)) user
                   = postgres.registerAll eng ctx (grantsOf eng r namePrefix db user)).
  { unfold postgres.grantDBAccess, grantsOf. rewrite Hdb.
    destruct (decide (postgres.Permission user = postgres.ReadOnly)) as [E|E].
    - now rewrite (bool_decide_eq_true_2 _ E).
    - now rewrite (bool_decide_eq_false_2 _ E). }
  rewrite Hgrant.
  destruct (postgres.registerAll eng ctx (grantsOf eng r namePrefix db user))
    as [ctx1 [|e|p]]; try reflexivity.
  apply IH. intros j user' Hj. specialize (Hidx (S j) user' Hj).
  now replace (S i + j)%nat with (i + S j)%nat by lia.
Qed.

(** Once the props are accepted, [provision] is the registration, in order,
    of the planned requests. *)
Lemma provision_registerAll eng ctx r namePrefix props props' :
  postgres.PostgresDbProps_fillRuntimeInputs props = (props', None) ->
  exists r',
    postgres.PostgresDBResource_provision eng ctx r namePrefix props
    = (fst (postgres.registerAll eng ctx (planned eng r namePrefix props')), r', props',
       snd (postgres.registerAll eng ctx (planned eng r namePrefix props')))
    /\ (snd (postgres.registerAll eng ctx (planned eng r namePrefix props')) = postgres.Nil ->
        postgres.db_ResourceState r' = postgres.db_ResourceState r
        /\ postgres.Roles r'
           = map (fun user => Some (roleRequest (postgres.db_ResourceState r)
                                      namePrefix user))
               (postgres.DbRoles props')
        /\ postgres.DB r'
           = Some (databaseRequest (postgres.db_ResourceState r) namePrefix
                     (postgres.Database props')
                     (ownerOf eng (postgres.db_ResourceState r) namePrefix
                        (postgres.DbRoles props')))).
Proof.
  intros Hfill. unfold postgres.PostgresDBResource_provision. rewrite Hfill.
  set (r0 := postgres.mkDBResource (postgres.db_ResourceState r)
               (replicate (length (postgres.DbRoles props')) None) (postgres.DB r)).
  set (roles := map (roleRequest (postgres.db_ResourceState r) namePrefix)
                  (postgres.DbRoles props')).
  set (db := databaseRequest (postgres.db_ResourceState r) namePrefix
               (postgres.Database props')
               (ownerOf eng (postgres.db_ResourceState r) namePrefix
                  (postgres.DbRoles props'))).
  destruct (rolesLoop_registerAll eng namePrefix (postgres.DbRoles props') 0 ctx r0
              (pulumi_String "postgres"))
    as (r1 & owner1 & Hloop & Hstate1 & Hdb1 & Hnil1).
  { cbn [r0 postgres.Roles]. rewrite length_replicate. lia. }
  cbn [r0 postgres.db_ResourceState] in Hloop, Hstate1, Hnil1. fold roles in Hloop, Hnil1.
  rewrite Hloop.
  unfold planned. fold roles. fold db. rewrite registerAll_app.
  destruct (postgres.registerAll eng ctx roles) as [ctx1 [|e|p]] eqn:Hroles;
    cbn [fst snd] in *.
  - destruct (Hnil1 eq_refl) as [Hr1 Howner]. rewrite take_0 in Hr1. cbn [app] in Hr1.
    rewrite Nat.add_0_l in Hr1.
    rewrite drop_ge in Hr1 by (cbn [r0 postgres.Roles]; rewrite length_replicate; lia).
    rewrite app_nil_r in Hr1.
    assert (Hprov : postgres.provisionDB eng ctx1 r1 namePrefix owner1 props'
                    = postgres.register eng ctx1 db).
    { unfold postgres.provisionDB, db, databaseRequest, ownerOf.
      now rewrite Hstate1, Howner. }
    rewrite Hprov. rewrite (registerAll_app eng [db]). cbn [postgres.registerAll].
    destruct (postgres.register eng ctx1 db) as [ctx2 [db'|err]] eqn:Hreg.
    + assert (db' = db) as ->.
      { unfold postgres.register in Hreg.
        destruct (postgres.rejects eng _ _); now inversion Hreg. }
      set (r2 := postgres.mkDBResource (postgres.db_ResourceState r1) (postgres.Roles r1)
                   (Some db)).
      assert (Hgl : postgres.grantsLoop eng namePrefix props' 0 (postgres.Roles r2) ctx2 r2
                    = postgres.registerAll eng ctx2
                        (concat (map (grantsOf eng r namePrefix db)
                                   (postgres.DbRoles props')))).
      { cbn [r2 postgres.Roles]. rewrite Hr1.
        replace (postgres.db_ResourceState r) with (postgres.db_ResourceState r2)
          by (cbn [r2 postgres.db_ResourceState]; exact Hstate1).
        rewrite (grantsLoop_registerAll eng namePrefix props' r2 db) by (reflexivity || eauto).
        f_equal. f_equal. apply map_ext. intros user. apply grantsOf_state.
        cbn [r2 postgres.db_ResourceState]. exact Hstate1. }
      rewrite Hgl.
      destruct (postgres.registerAll eng ctx2 _) as [ctx3 o3].
      exists r2. split; [reflexivity|]. intros _. cbn [r2 postgres.db_ResourceState
        postgres.Roles postgres.DB]. now rewrite Hstate1, Hr1.
    + exists r1. split; [reflexivity|]. discriminate.
  - exists r1. split; [reflexivity|]. discriminate.
  - exists r1. split; [reflexivity|]. discriminate.
Qed.

(** X18: [provision] of the database component first checks the props; when
    they are refused it registers nothing and returns that error.
    Otherwise it calls the constructors for the planned requests in order
    (one role per permission, named prefix-permission; the database, owned
    by the read-write role if there is one and by postgres if not; four
    grants per read-only role and none for a read-write role) and stops at
    the first the engine rejects, returning its error: what is registered is
    a prefix of the plan, the whole plan exactly when the error is nil.  It
    never panics and registers no outputs. *)
Theorem PostgresDBResource_provision_plan eng ctx r namePrefix props :
  let run := postgres.PostgresDBResource_provision eng ctx r namePrefix props in
  let ctx' := fst (fst (fst run)) in
  let r' := snd (fst (fst run)) in
  let props' := snd (fst run) in
  let o := snd run in
  props' = fst (postgres.PostgresDbProps_fillRuntimeInputs props)
  /\ postgres.outputs ctx' = postgres.outputs ctx
  /\ (forall p, o <> postgres.Panic p)
  /\ match snd (postgres.PostgresDbProps_fillRuntimeInputs props) with
     | Some err => o = postgres.Err err /\ ctx' = ctx /\ r' = r
     | None =>
         exists n,
           postgres.registered ctx'
           = postgres.registered ctx ++ take n (planned eng r namePrefix props')
           /\ (o = postgres.Nil
               /\ n = length (planned eng r namePrefix props')
               /\ postgres.Roles r'
                  = map (fun user => Some (roleRequest (postgres.db_ResourceState r)
                                             namePrefix user))
                      (postgres.DbRoles props')
               /\ postgres.DB r'
                  = Some (databaseRequest (postgres.db_ResourceState r) namePrefix
                            (postgres.Database props')
                            (ownerOf eng (postgres.db_ResourceState r) namePrefix
                               (postgres.DbRoles props')))
               \/ exists req,
                    planned eng r namePrefix props' !! n = Some req
                    /\ o = postgres.Err (postgres.ErrEngine req)
                    /\ postgres.rejects eng (postgres.registered ctx') req = true)
     end.
Proof.
  cbv zeta.
  destruct (postgres.PostgresDbProps_fillRuntimeInputs props) as [props1 [err|]] eqn:Hfill;
    cbn [fst snd].
  - unfold postgres.PostgresDBResource_provision. rewrite Hfill. cbn [fst snd].
    repeat split; discriminate.
  - destruct (provision_registerAll eng ctx r namePrefix props props1 Hfill)
      as (r' & -> & Hnil). cbn [fst snd].
    destruct (postgres.registerAll eng ctx (planned eng r namePrefix props1))
      as [ctx' o] eqn:Hall. cbn [fst snd] in *.
    destruct (registerAll_prefix eng _ _ _ _ Hall) as [Hout (n & Hreg & Hn)].
    split; [reflexivity|]. split; [exact Hout|]. split.
    + intros p ->. destruct Hn as [[H _]|(req & _ & H & _)]; discriminate.
    + exists n. split; [exact Hreg|].
      destruct Hn as [[-> ->]|Hn]; [left|right; exact Hn].
      destruct (Hnil eq_refl) as (_ & Hroles & Hdb). now repeat split.
Qed.

(** ** The outputs of the database component *)

Lemma databaseOutputRoles_roles eng (roles : list postgres.Request) :
  forall outputRoles,
    postgres.databaseOutputRoles eng (map Some roles) outputRoles
    = inl (outputRoles
           ++ map (fun role => postgres.MMap
                                 [("username", postgres.MString (postgres.Name eng role))])
                roles).
Proof.
  induction roles as [|role roles IH]; intros outputRoles;
    cbn [map postgres.databaseOutputRoles].
  - now rewrite app_nil_r.
  - rewrite IH. now rewrite <- app_assoc.
Qed.

Lemma register_inv eng ctx req ctx' res :
  postgres.register eng ctx req = (ctx', res) ->
  match res with
  | inl req' =>
      req' = req /\ postgres.rejects eng (postgres.registered ctx) req = false
      /\ ctx' = postgres.mkDeployment (postgres.registered ctx ++ [req]) (postgres.outputs ctx)
  | inr err =>
      err = postgres.ErrEngine req
      /\ postgres.rejects eng (postgres.registered ctx) req = true /\ ctx' = ctx
  end.
Proof.
  unfold postgres.register.
  destruct (postgres.rejects eng (postgres.registered ctx) req); intros [= <- <-];
    now repeat split.
Qed.

(** X19: [NewPostgresDatabase] never panics; it returns no resource exactly
    when the engine rejects the component itself; when it returns a nil
    error it has registered the component and then the whole plan of
    [provision], and the outputs it registers for the component hold, under
    users, twice as many entries as there are roles: [make] with a length
    followed by [append] puts one nil entry per role before the entries
    with the usernames.  When it returns an error no outputs are
    registered. *)
Theorem NewPostgresDatabase_outputs eng ctx name props opts :
  let run := postgres.NewPostgresDatabase eng ctx name props opts in
  let ctx' := fst (fst run) in
  let props' := fst (postgres.PostgresDbProps_fillRuntimeInputs props) in
  let component := postgres.mkRequest name
                     (postgres.RegisterComponentResource postgres.dbToken) opts in
  let r := postgres.mkDBResource name [] None in
  let roles := map (roleRequest name name) (postgres.DbRoles props') in
  let db := databaseRequest name name (postgres.Database props')
              (ownerOf eng name name (postgres.DbRoles props')) in
  (forall p, snd run <> postgres.Panic p)
  /\ (snd (fst run) = None <->
      postgres.rejects eng (postgres.registered ctx) component = true)
  /\ (snd run = postgres.Nil ->
      snd (postgres.PostgresDbProps_fillRuntimeInputs props) = None
      /\ snd (fst run)
         = Some (postgres.mkDBResource name (map Some roles) (Some db))
      /\ postgres.registered ctx'
         = postgres.registered ctx ++ component :: planned eng r name props'
      /\ postgres.outputs ctx'
         = postgres.outputs ctx
           ++ [(postgres.dbToken, name,
                [("database", postgres.MString (postgres.Name eng db));
                 ("users",
                  postgres.MArray
                    (replicate (length roles) postgres.MNil
                     ++ map (fun role =>
                               postgres.MMap
                                 [("username",
                                   postgres.MString (postgres.Name eng role))])
                          roles))])])
  /\ (snd run <> postgres.Nil -> postgres.outputs ctx' = postgres.outputs ctx).
Proof.
  cbv zeta. unfold postgres.NewPostgresDatabase.
  destruct (postgres.register eng ctx
              (postgres.mkRequest name
                 (postgres.RegisterComponentResource postgres.dbToken) opts))
    as [ctx1 [comp|err]] eqn:Hreg; apply register_inv in Hreg.
  - destruct Hreg as (-> & Hacc & ->).
    set (ctx1 := postgres.mkDeployment _ _).
    set (r := postgres.mkDBResource name [] None).
    destruct (postgres.PostgresDbProps_fillRuntimeInputs props) as [props1 [err|]] eqn:Hfill.
    + unfold postgres.PostgresDBResource_provision. rewrite Hfill. cbn [fst snd].
      split; [discriminate|]. split; [split; [discriminate|congruence]|].
      split; [discriminate|]. reflexivity.
    + destruct (provision_registerAll eng ctx1 r name props props1 Hfill)
        as (r' & -> & Hnil).
      destruct (postgres.registerAll eng ctx1 (planned eng r name props1))
        as [ctx2 o] eqn:Hall. cbn [fst snd] in *.
      destruct (registerAll_prefix eng _ _ _ _ Hall) as [Hout (n & Hregd & Hn)].
      cbn [ctx1 postgres.outputs postgres.registered] in Hout, Hregd.
      destruct o as [|e|p].
      * destruct (Hnil eq_refl) as (Hstate & Hroles & Hdb).
        cbn [r postgres.db_ResourceState] in Hstate, Hroles, Hdb.
        rewrite Hroles, Hdb.
        rewrite <- (map_map (roleRequest name name) Some).
        rewrite databaseOutputRoles_roles. cbn [fst snd].
        split; [discriminate|]. split; [split; [discriminate|congruence]|].
        split; [|congruence]. intros _. split; [reflexivity|].
        split.
        { f_equal. destruct r' as [state roles' db']. cbn in Hstate, Hroles, Hdb.
          subst state roles' db'. now rewrite <- (map_map (roleRequest name name) Some). }
        destruct Hn as [[_ ->]|(req & _ & H & _)]; [|discriminate].
        rewrite firstn_all in Hregd.
        split.
        { cbn [postgres.RegisterResourceOutputs postgres.registered].
          rewrite Hregd. now rewrite <- app_assoc. }
        cbn [postgres.RegisterResourceOutputs postgres.outputs]. rewrite Hout.
        now rewrite !length_map.
      * cbn [fst snd]. split; [discriminate|].
        split; [split; [discriminate|congruence]|]. split; [discriminate|].
        intros _. exact Hout.
      * destruct Hn as [[H _]|(req & _ & H & _)]; discriminate.
  - destruct Hreg as (-> & Hrej & ->). cbn [fst snd].
    split; [discriminate|]. split; [tauto|]. split; [discriminate|]. reflexivity.
Qed.

(** ** The users component *)

Lemma users_provision_registerAll eng ctx r name prop :
  let plan := userPlan eng (postgres.users_ResourceState r) name prop in
  exists prop',
    postgres.PostgresUsersResource_provision eng ctx r name prop
    = match postgres.registerAll eng ctx plan with
      | (ctx', postgres.Nil) =>
          (ctx',
           postgres.mkUsersResource (postgres.users_ResourceState r)
             (postgres.Users r ++ [userRole eng (postgres.users_ResourceState r) name prop])
             (postgres.FailedUser r),
           prop', None)
      | (ctx', postgres.Err err) => (ctx', r, prop', Some err)
      | (ctx', postgres.Panic _) => (ctx', r, prop', None)
      end.
Proof.
  cbv zeta. unfold postgres.PostgresUsersResource_provision,
    postgres.PostgresUserProps_fillRuntimeInputs, userPlan.
  destruct prop as [username [password|] assume login];
    cbn [postgres.Password postgres.Username postgres.AssumeRole postgres.Login].
  - cbn [postgres.registerAll].
    change (postgres.mkRequest (name +:+ "-" +:+ username) _ _)
      with (userRole eng (postgres.users_ResourceState r) name
              (postgres.mkUserProps username (Some password) assume login)).
    destruct (postgres.register eng ctx _) as [ctx1 [role|err]] eqn:Hreg;
      apply register_inv in Hreg.
    + destruct Hreg as (-> & _ & _). eexists. reflexivity.
    + eexists. reflexivity.
  - unfold postgres.NewRandomPassword. cbn [postgres.registerAll].
    change (postgres.mkRequest (username +:+ "-" +:+ "password") _ _)
      with (passwordRequest (postgres.users_ResourceState r)
              (postgres.mkUserProps username None assume login)).
    destruct (postgres.register eng ctx _) as [ctx1 [passwd|err]] eqn:Hreg;
      apply register_inv in Hreg.
    + destruct Hreg as (-> & _ & _).
      cbn [postgres.Password postgres.Username postgres.AssumeRole postgres.Login].
      change (postgres.mkRequest (name +:+ "-" +:+ username) _ _)
        with (userRole eng (postgres.users_ResourceState r) name
                (postgres.mkUserProps username None assume login)).
      destruct (postgres.register eng ctx1 _) as [ctx2 [role|err]] eqn:Hreg2;
        apply register_inv in Hreg2.
      * destruct Hreg2 as (-> & _ & _). eexists. reflexivity.
      * eexists. reflexivity.
    + eexists. reflexivity.
Qed.

Lemma usersLoop_spec eng name props :
  forall ctx r ctx' r' err,
    postgres.usersLoop eng name props ctx r = (ctx', r', err) ->
    let component := postgres.users_ResourceState r in
    postgres.users_ResourceState r' = component
    /\ postgres.outputs ctx' = postgres.outputs ctx
    /\ match err with
       | None =>
           postgres.registered ctx'
           = postgres.registered ctx ++ concat (map (userPlan eng component name) props)
           /\ postgres.Users r'
              = postgres.Users r ++ map (userRole eng component name) props
           /\ postgres.FailedUser r' = postgres.FailedUser r
       | Some e =>
           exists pre prop rest n req,
             props = pre ++ prop :: rest
             /\ postgres.registered ctx'
                = postgres.registered ctx
                  ++ concat (map (userPlan eng component name) pre)
                  ++ take n (userPlan eng component name prop)
             /\ userPlan eng component name prop !! n = Some req
             /\ e = postgres.ErrEngine req
             /\ postgres.rejects eng (postgres.registered ctx') req = true
             /\ postgres.Users r'
                = postgres.Users r ++ map (userRole eng component name) pre
             /\ postgres.FailedUser r' = postgres.Username prop
       end.
Proof.
  induction props as [|prop props IH]; intros ctx r ctx' r' err;
    cbn [postgres.usersLoop].
  - intros [= <- <- <-]. cbv zeta. cbn [map concat]. rewrite !app_nil_r. now repeat split.
  - destruct (users_provision_registerAll eng ctx r name prop) as [prop' ->].
    destruct (postgres.registerAll eng ctx
                (userPlan eng (postgres.users_ResourceState r) name prop))
      as [ctx1 o1] eqn:Hall.
    destruct (registerAll_prefix eng _ _ _ _ Hall) as [Hout (n & Hreg & Hn)].
    destruct o1 as [|e|p].
    + destruct Hn as [[_ ->]|(req & _ & H & _)]; [|discriminate].
      rewrite firstn_all in Hreg. intros Hrest.
      specialize (IH _ _ _ _ _ Hrest). cbv zeta in IH.
      cbn [postgres.users_ResourceState postgres.Users postgres.FailedUser] in IH.
      destruct IH as (Hstate & Hout' & IH). cbv zeta.
      split; [exact Hstate|]. split; [congruence|].
      destruct err as [e|].
      * destruct IH as (pre & prop0 & rest & k & req & -> & Hr & Hk & -> & Hrej & Hu & Hf).
        exists (prop :: pre), prop0, rest, k, req. cbn [map concat app].
        split; [reflexivity|].
        split; [rewrite Hr, Hreg; now rewrite <- !app_assoc|].
        split; [exact Hk|]. split; [reflexivity|]. split; [exact Hrej|].
        split; [rewrite Hu; now rewrite <- app_assoc|exact Hf].
      * destruct IH as (Hr & Hu & Hf). cbn [map concat].
        split; [rewrite Hr, Hreg; now rewrite <- !app_assoc|].
        split; [rewrite Hu; now rewrite <- app_assoc|exact Hf].
    + destruct Hn as [[H _]|(req & Hk & [= ->] & Hrej)]; [discriminate|].
      intros [= <- <- <-]. cbv zeta.
      cbn [postgres.users_ResourceState postgres.Users postgres.FailedUser].
      split; [reflexivity|]. split; [exact Hout|].
      exists [], prop, props, n, req. cbn [map concat app].
      rewrite app_nil_r. now repeat split.
    + destruct Hn as [[H _]|(req & _ & H & _)]; discriminate.
Qed.

Lemma usersOutputRoles_app eng users :
  forall outputRoles,
    postgres.usersOutputRoles eng users outputRoles
    = outputRoles ++ map (userOutput eng) users.
Proof.
  unfold postgres.usersOutputRoles.
  induction users as [|role users IH]; intros outputRoles; cbn [foldl map].
  - now rewrite app_nil_r.
  - rewrite IH. now rewrite <- app_assoc.
Qed.

(** X20: [NewPostgresUsers] returns no resource exactly when the engine
    rejects the component itself.  With a nil error it has registered, for
    each user in order, a random password of length 16 when the props give
    no password and then the role of the user (with the password given or
    the result of the random one); the resource holds the roles in the
    order of the props, and the outputs registered for the component hold,
    under users, one nil entry per role before the entries of the roles.
    With an error from a user, the resource names in FailedUser the first
    user for which a constructor was rejected, holds the roles of the users
    before it only, the error is the engine's for the rejected request, and
    no outputs are registered. *)
Theorem NewPostgresUsers_spec eng ctx name props opts :
  let run := postgres.NewPostgresUsers eng ctx name props opts in
  let ctx' := fst (fst run) in
  let component := postgres.mkRequest name
                     (postgres.RegisterComponentResource postgres.usersToken) opts in
  (snd (fst run) = None <->
   postgres.rejects eng (postgres.registered ctx) component = true)
  /\ (snd run = None ->
      snd (fst run)
      = Some (postgres.mkUsersResource name (map (userRole eng name name) props) "")
      /\ postgres.registered ctx'
         = postgres.registered ctx
           ++ component :: concat (map (userPlan eng name name) props)
      /\ postgres.outputs ctx'
         = postgres.outputs ctx
           ++ [(postgres.usersToken, name,
                [("users",
                  postgres.MArray
                    (replicate (length props) postgres.MNil
                     ++ map (fun prop => userOutput eng (userRole eng name name prop))
                          props))])])
  /\ (forall e res,
        snd run = Some e -> snd (fst run) = Some res ->
        postgres.outputs ctx' = postgres.outputs ctx
        /\ exists pre prop rest n req,
             props = pre ++ prop :: rest
             /\ postgres.FailedUser res = postgres.Username prop
             /\ postgres.Users res = map (userRole eng name name) pre
             /\ postgres.registered ctx'
                = postgres.registered ctx
                  ++ component :: concat (map (userPlan eng name name) pre)
                  ++ take n (userPlan eng name name prop)
             /\ userPlan eng name name prop !! n = Some req
             /\ e = postgres.ErrEngine req).
Proof.
  cbv zeta. unfold postgres.NewPostgresUsers.
  destruct (postgres.register eng ctx
              (postgres.mkRequest name
                 (postgres.RegisterComponentResource postgres.usersToken) opts))
    as [ctx1 [comp|err]] eqn:Hreg; apply register_inv in Hreg.
  - destruct Hreg as (-> & Hacc & ->).
    destruct (postgres.usersLoop eng name props _ _) as [[ctx2 r2] err] eqn:Hloop.
    apply usersLoop_spec in Hloop. cbv zeta in Hloop.
    cbn [postgres.users_ResourceState postgres.Users postgres.FailedUser
           postgres.outputs postgres.registered] in Hloop.
    destruct Hloop as (Hstate & Hout & Hloop).
    destruct err as [e|]; cbn [fst snd].
    + split; [split; [discriminate|congruence]|]. split; [discriminate|].
      intros e' res [= <-] [= <-]. split; [exact Hout|].
      destruct Hloop as (pre & prop & rest & n & req & -> & Hr & Hk & -> & _ & Hu & Hf).
      exists pre, prop, rest, n, req. split; [reflexivity|]. split; [exact Hf|].
      split; [exact Hu|]. split; [rewrite Hr; now rewrite <- app_assoc|].
      split; [exact Hk|reflexivity].
    + destruct Hloop as (Hr & Hu & Hf). cbn [app] in Hu.
      split; [split; [discriminate|congruence]|].
      split; [|intros e res H; discriminate H]. intros _.
      split; [f_equal; destruct r2 as [s u f]; cbn in *; now subst|].
      cbn [postgres.RegisterResourceOutputs postgres.registered postgres.outputs].
      split; [rewrite Hr; now rewrite <- app_assoc|].
      rewrite Hout, usersOutputRoles_app, Hu, length_map, map_map. reflexivity.
  - destruct Hreg as (-> & Hrej & ->). cbn [fst snd].
    split; [tauto|]. split; [discriminate|]. intros e res _ H. discriminate H.
Qed.

(** ** The program: the database, then the login users *)



(** X22: when [provisionDatabase] and then [provisionLoginUsers] return a
    nil error, the database component has registered one role, named
    database-rw, and the database owned by it; every login user has a
    random password of its own, registered just before its role, and its
    role assumes the role database-rw, the name of the role that owns the
    database. *)
Theorem login_users_assume_owner_role eng ctx cfg provider :
  let runDb := creds.provisionDatabase eng ctx cfg provider in
  let runUsers := creds.provisionLoginUsers eng (fst (fst runDb)) cfg provider in
  let database := creds.Database cfg in
  let owner := roleRequest database database (postgres.mkDbRoleProps postgres.ReadWrite) in
  snd runDb = postgres.Nil ->
  snd runUsers = None ->
  postgres.registered (fst (fst runDb))
  = postgres.registered ctx
    ++ [postgres.mkRequest database
          (postgres.RegisterComponentResource postgres.dbToken)
          [postgres.Provider provider];
        owner;
        databaseRequest database database database (postgres.Name eng owner)]
  /\ postgres.req_name owner = database +:+ "-rw"
  /\ postgres.registered (fst (fst runUsers))
     = postgres.registered (fst (fst runDb))
       ++ postgres.mkRequest database
            (postgres.RegisterComponentResource postgres.usersToken)
            [postgres.Provider provider]
          :: concat (map (fun user =>
                            [passwordRequest database (loginProps cfg user);
                             userRole eng database database (loginProps cfg user)])
                       (creds.Users cfg))
  /\ Forall (fun user =>
               exists args,
                 postgres.req_args (userRole eng database database (loginProps cfg user))
                 = postgres.postgresql_NewRole args
                 /\ postgres.role_AssumeRole args
                    = Some (creds.Sprintf (postgres.req_name owner))
                 /\ postgres.role_Password args
                    = Some (postgres.Result eng
                              (passwordRequest database (loginProps cfg user))))
       (creds.Users cfg).
Proof.
  cbv zeta. unfold creds.provisionDatabase, creds.provisionLoginUsers.
  intros Hdb Husers.
  split; [|split; [reflexivity|split]].
  - revert Hdb. unfold postgres.NewPostgresDatabase.
    destruct (postgres.register eng ctx _) as [ctx1 [comp|err]] eqn:Hreg;
      apply register_inv in Hreg; [|discriminate].
    destruct Hreg as (-> & _ & ->).
    set (ctx1 := postgres.mkDeployment _ _).
    set (r := postgres.mkDBResource (creds.Database cfg) [] None).
    destruct (provision_registerAll eng ctx1 r (creds.Database cfg)
                (postgres.mkDbProps (creds.Database cfg) [])
                (postgres.mkDbProps (creds.Database cfg)
                   [postgres.mkDbRoleProps postgres.ReadWrite]) eq_refl)
      as (r' & -> & Hnil).
    destruct (postgres.registerAll eng ctx1 _) as [ctx2 o] eqn:Hall. cbn [fst snd] in *.
    destruct (registerAll_prefix eng _ _ _ _ Hall) as [_ (n & Hregd & Hn)].
    destruct o as [|e|p]; [|discriminate|discriminate].
    destruct Hn as [[_ ->]|(req & _ & H & _)]; [|discriminate].
    rewrite firstn_all in Hregd. destruct (Hnil eq_refl) as (_ & -> & ->).
    rewrite <- (map_map (roleRequest _ _) Some), databaseOutputRoles_roles.
    cbn [fst postgres.RegisterResourceOutputs postgres.registered]. intros _.
    rewrite Hregd. cbn [ctx1 postgres.registered]. rewrite <- app_assoc. reflexivity.
  - revert Husers. unfold postgres.NewPostgresUsers.
    destruct (postgres.register eng _ _) as [ctx1 [comp|err]] eqn:Hreg;
      apply register_inv in Hreg; [|discriminate].
    destruct Hreg as (-> & _ & ->).
    destruct (postgres.usersLoop eng _ _ _ _) as [[ctx2 r2] err] eqn:Hloop.
    apply usersLoop_spec in Hloop. cbv zeta in Hloop.
    cbn [postgres.users_ResourceState postgres.registered] in Hloop.
    destruct Hloop as (_ & _ & Hloop). destruct err as [e|]; [discriminate|].
    destruct Hloop as (Hr & _ & _). intros _.
    cbn [fst postgres.RegisterResourceOutputs postgres.registered].
    rewrite Hr, <- app_assoc. cbn [app]. rewrite map_map. reflexivity.
  - apply Forall_forall. intros user _. eexists. split; [reflexivity|].
    split; reflexivity.
Qed.

(** * The theorems at concrete inputs *)

Lemma entry_points_reject_nil_pointer :
  isStructPtr (AVal (VNilPtr PostgresDbProps)) = false
  /\ ExtractConfig simpleExternal pgContext "pg" (AVal (VNilPtr PostgresDbProps))
     = (AVal (VNilPtr PostgresDbProps), [], Err ErrObjNotStructPtr)
  /\ unmarshallJSONMap [("database", JStr "app")] (AVal (VNilPtr PostgresDbProps))
     = (AVal (VNilPtr PostgresDbProps), Err ErrObjNotStructPtr).
Proof.
  split; [reflexivity|].
  apply (entry_points_reject_non_struct_pointer simpleExternal pgContext "pg"
           [("database", JStr "app")] (AVal (VNilPtr PostgresDbProps))).
  reflexivity.
Defined.


Lemma unresolved_host_kept :
  let handle := pulumi_StringOutput (mkOutput "10.0.0.7" false) in
  let fields := providerFields (Some handle) None in
  unresolved StringInput (Some handle) = true
  /\ exists fields' keys o fv',
       ExtractConfig simpleExternal pgContext "pg" (target fields)
       = (target fields', keys, o)
       /\ fields' !! 0%nat
          = Some (mkField "Host" (tag [("required", ""); ("json", "host")]) fv')
       /\ (unresolved StringInput (Some handle) = true ->
           fv' = VInterface StringInput (Some handle))
       /\ (fv' = VInterface StringInput (Some handle)
           \/ exists lit, fv' = VInterface StringInput (Some lit)
                /\ holdsLiteral StringInput (Some lit) = true
                /\ nonZeroLiteral lit = true
                /\ (isNilDyn (Some handle) || holdsLiteral StringInput (Some handle)) = true).
Proof.
  intros handle fields. split; [reflexivity|].
  apply (unresolved_handle_kept simpleExternal pgContext "pg" fields 0
           (mkField "Host" (tag [("required", ""); ("json", "host")])
              (VInterface StringInput (Some handle)))
           StringInput (Some handle) "host");
    reflexivity.
Defined.

Lemma scalar_rebind_pgConfig :
  let run := ExtractConfig simpleExternal pgContext "pg" (target scalarFields) in
  forallb scalarOrSkipped scalarFields = true
  /\ run.2 = Nil
  /\ ExtractConfig simpleExternal pgContext "pg" run.1.1 = run.
Proof.
  intros run. split; [reflexivity|]. split; [reflexivity|].
  apply (scalar_rebind_idempotent simpleExternal pgContext "pg" scalarFields
           run.1.1 run.1.2 run.2);
    reflexivity.
Defined.

Lemma append_law_roles :
  let A := [JObj [("permission", JStr "ro")]; JObj [("permission", JStr "rw")]] in
  let B := [JObj [("permission", JStr "admin")]] in
  let s1 := Some [roleProps "ro"; roleProps "rw"] in
  let s2 := Some [roleProps "ro"; roleProps "rw"; roleProps "admin"] in
  unmarshallJSONArray A (AVal (VPtr (VSlice PostgresDbRoleProps None)))
  = (AVal (VPtr (VSlice PostgresDbRoleProps s1)), Nil)
  /\ unmarshallJSONArray B (AVal (VPtr (VSlice PostgresDbRoleProps s1)))
     = (AVal (VPtr (VSlice PostgresDbRoleProps s2)), Nil)
  /\ length (sliceList s1) = length A
  /\ length (sliceList s2) = (length A + length B)%nat
  /\ take (length A) (sliceList s2) = sliceList s1
  /\ forall i val, B !! i = Some val ->
       exists dict e,
         val = JObj dict
         /\ sliceList s2 !! (length A + i)%nat = Some e
         /\ unmarshallJSONMap dict (AVal (Addr (zero PostgresDbRoleProps)))
            = (AVal (Addr e), Nil).
Proof.
  intros A B s1 s2. split; [reflexivity|]. split; [reflexivity|].
  apply (append_law PostgresDbRoleProps A B None s1 s2); reflexivity.
Defined.


Lemma required_keys_pgConfig :
  let run := ExtractConfig simpleExternal pgContext "pg" (target scalarFields) in
  let ff := mkField "Database" (tag [("json", "database"); ("required", "")]) (VString "") in
  run = (run.1.1, run.1.2, Nil)
  /\ ff ∈ scalarFields
  /\ requiresKey ff = true
  /\ is_Some (ctxConfig pgContext !! fullKey (config_New pgContext "pg") "database").
Proof.
  intros run ff.
  assert (Hin : ff ∈ scalarFields) by (apply list_elem_of_here).
  split; [reflexivity|]. split; [exact Hin|]. split; [reflexivity|].
  apply (ExtractConfig_Nil_has_required_keys simpleExternal pgContext "pg" scalarFields
           run.1.1 run.1.2 eq_refl ff "database" false Hin);
    reflexivity.
Defined.


Lemma secret_inputs_superuserPassword :
  let ctx := context [("pg:host", "db.internal"); ("pg:superuserPassword", "hunter2")] in
  let fields := providerFields None (Some (pulumi_String "changeme")) in
  let fields' := providerFields (Some (pulumi_String "db.internal"))
                   (Some (pulumi_StringOutput (mkOutput "hunter2" true))) in
  ExtractConfig simpleExternal ctx "pg" (target fields)
  = (target fields', ["pg:host"; "pg:superuserPassword"], Nil)
  /\ exists out,
       fields' !! 1%nat
       = Some (mkField "SuperuserPassword"
                 (tag [("required", ""); ("secret", "superuserPassword")])
                 (VInterface StringInput (Some out)))
       /\ secretOutputOf StringInput out = true
       /\ (StringInput = StringInput ->
           out = pulumi_StringOutput
                   (mkOutput
                      (default "" (ctxConfig ctx
                                     !! fullKey (config_New ctx "pg") "superuserPassword"))
                      true)).
Proof.
  intros ctx fields fields'. split; [reflexivity|].
  apply (ExtractConfig_secret_inputs simpleExternal ctx "pg" fields fields'
           ["pg:host"; "pg:superuserPassword"] eq_refl 1
           (mkField "SuperuserPassword"
              (tag [("required", ""); ("secret", "superuserPassword")])
              (VInterface StringInput (Some (pulumi_String "changeme"))))
           StringInput (Some (pulumi_String "changeme")) "superuserPassword");
    reflexivity.
Defined.


Lemma Nil_shapes_roles :
  let ctx := context [("pg:database", "{}"); ("pg:roles", "[{}]")] in
  let run := ExtractConfig emptyJsonExternal ctx "pg" (target structuralFields) in
  let ff := mkField "Roles" (tag [("json", "roles")]) (zero (TSlice PostgresDbRoleProps)) in
  run = (run.1.1, run.1.2, Nil)
  /\ ff ∈ structuralFields
  /\ ctxConfig ctx !! fullKey (config_New ctx "pg") "roles" = Some "[{}]"
  /\ exists arr, json_Unmarshal emptyJsonExternal "[{}]" = Some (JArr arr).
Proof.
  intros ctx run ff.
  assert (Hin : ff ∈ structuralFields) by (apply list_elem_of_further, list_elem_of_here).
  split; [reflexivity|]. split; [exact Hin|]. split; [reflexivity|].
  apply (ExtractConfig_Nil_shapes emptyJsonExternal ctx "pg" structuralFields
           run.1.1 run.1.2 eq_refl ff "roles" false "[{}]" Hin);
    reflexivity.
Defined.


Lemma stops_at_port_pointer :
  let dict := [("port", JNum twoAndHalf); ("name", JStr "app")] in
  let ff := mkField "Port" (tag [("json", "port")]) (zero (TPtr (TInt Int))) in
  let rest := [mkField "Name" (tag [("json", "name")]) (VString "")] in
  pointerToScalar dict ff = true
  /\ exists pre' fv',
       fst (unmarshallJSONMap dict (target ([] ++ ff :: rest)))
       = target (pre' ++ mkField (fname ff) (ftag ff) fv' :: rest)
       /\ length pre' = length (@nil (Field GoVal)).
Proof.
  intros dict ff rest. split; [reflexivity|].
  apply (unmarshallJSONMap_stops_at_pointer dict [] ff rest). reflexivity.
Defined.


Lemma login_users_of_app :
  let eng := rejecting "" in
  let runDb := creds.provisionDatabase eng emptyDeployment appConfig "postgresql" in
  let runUsers := creds.provisionLoginUsers eng (fst (fst runDb)) appConfig "postgresql" in
  let owner := roleRequest "app" "app" (postgres.mkDbRoleProps postgres.ReadWrite) in
  snd runDb = postgres.Nil
  /\ snd runUsers = None
  /\ postgres.registered (fst (fst runDb))
     = postgres.registered emptyDeployment
       ++ [postgres.mkRequest "app" (postgres.RegisterComponentResource postgres.dbToken)
             [postgres.Provider "postgresql"];
           owner;
           databaseRequest "app" "app" "app" (postgres.Name eng owner)]
  /\ postgres.req_name owner = "app" +:+ "-rw"
  /\ postgres.registered (fst (fst runUsers))
     = postgres.registered (fst (fst runDb))
       ++ postgres.mkRequest "app" (postgres.RegisterComponentResource postgres.usersToken)
            [postgres.Provider "postgresql"]
          :: concat (map (fun user =>
                            [passwordRequest "app" (loginProps appConfig user);
                             userRole eng "app" "app" (loginProps appConfig user)])
                       (creds.Users appConfig))
  /\ Forall (fun user =>
               exists args,
                 postgres.req_args (userRole eng "app" "app" (loginProps appConfig user))
                 = postgres.postgresql_NewRole args
                 /\ postgres.role_AssumeRole args
                    = Some (creds.Sprintf (postgres.req_name owner))
                 /\ postgres.role_Password args
                    = Some (postgres.Result eng
                              (passwordRequest "app" (loginProps appConfig user))))
       (creds.Users appConfig).
Proof.
  intros eng runDb runUsers owner.
  split; [reflexivity|]. split; [reflexivity|].
  apply (login_users_assume_owner_role eng emptyDeployment appConfig "postgresql");
    reflexivity.
Defined.


Lemma never_zeroes_exportAsSecret :
  let ctx := context [("pg:exportAsSecret", "false")] in
  let ff := mkField "ExportAsSecret" (tag [("json", "exportAsSecret")]) (VBool true) in
  defaultedFields !! 0%nat = Some ff
  /\ wideScalar (fval ff) = true
  /\ exists fields' fv',
       fst (fst (ExtractConfig simpleExternal ctx "pg" (target defaultedFields)))
       = target fields'
       /\ fields' !! 0%nat = Some (mkField (fname ff) (ftag ff) fv')
       /\ (fv' = fval ff \/ IsZero fv' = false).
Proof.
  intros ctx ff. split; [reflexivity|]. split; [reflexivity|].
  apply (ExtractConfig_never_zeroes simpleExternal ctx "pg" defaultedFields 0 ff);
    reflexivity.
Defined.
